(** * Real-time WebSocket notification subsystem of perkup-backend

    A shallow embedding of

    - [src/handlers/websocket/connectHandler.js] (the admission handler), and
    - [src/services/websocketService.js] ([WebSocketNotificationService]),

    together with the properties of the connection registry, the topic
    router, the broadcaster, the reaper and the statistics aggregator.

    The DynamoDB table of connections is a finite map keyed by
    [connectionId]; every call the code makes to an external service
    (DynamoDB, API Gateway, the JWT library, the clock) is answered by an
    environment [Env] and recorded in a log of calls.  Asynchronous
    functions are programs of a small state-and-exception monad [Prog]:
    a promise that rejects is a program that ends in [Rejected].
    Console output is not modelled, and constructing a client of an
    external service is taken not to throw. *)

From Stdlib Require Import ZArith String Ascii.
From stdpp Require Import base option list gmap strings fin_maps.

Local Open Scope Z_scope.
Local Open Scope string_scope.
Local Open Scope list_scope.

(** ** JavaScript strings *)

Module Js.

(** [c.toLowerCase()] on one code unit.  The model is that of the code
    on strings of ASCII characters ([is_ascii]), where the only cased
    letters are A to Z; the letters beyond ASCII, which the code lowers as
    well, are outside the model, and what is proved of the lowering
    assumes [is_ascii]. *)
Definition lower_ascii (c : ascii) : ascii :=
  let n := nat_of_ascii c in
  if ((65 <=? n)%nat && (n <=? 90)%nat)%bool then ascii_of_nat (n + 32) else c.

Fixpoint toLowerCase (s : string) : string :=
  match s with
  | EmptyString => EmptyString
  | String c s' => String (lower_ascii c) (toLowerCase s')
  end.

Fixpoint drop (n : nat) (s : string) : string :=
  match n, s with
  | O, _ => s
  | S _, EmptyString => EmptyString
  | S n', String _ s' => drop n' s'
  end.

(** [s.replace(pat, '')] with a string pattern: the first occurrence of
    [pat] is removed, the rest of [s] is kept. *)
Fixpoint remove_first (pat s : string) : string :=
  if String.prefix pat s then drop (String.length pat) s
  else match s with
       | EmptyString => EmptyString
       | String c s' => String c (remove_first pat s')
       end.

(** A value interpolated in a template literal: [undefined] prints as
    the word itself. *)
Definition interpolate (v : option string) : string :=
  match v with
  | Some s => s
  | None => "undefined"
  end.

(** All the characters of the string are ASCII characters. *)
Definition is_ascii (s : string) : bool :=
  forallb (fun c => (nat_of_ascii c <? 128)%nat) (list_ascii_of_string s).

(** The names a plain object ([{}] or an object literal) answers to
    without having them as properties of its own: the members of
    [Object.prototype]. *)
Definition object_prototype_names : list string :=
  [ "constructor"; "__defineGetter__"; "__defineSetter__"; "hasOwnProperty";
    "__lookupGetter__"; "__lookupSetter__"; "isPrototypeOf";
    "propertyIsEnumerable"; "toString"; "valueOf"; "__proto__";
    "toLocaleString" ].

Definition inherited (key : string) : bool :=
  existsb (String.eqb key) object_prototype_names.

End Js.

(** ** Data model *)

(** An item of the connections table, with the attributes the admission
    handler writes.  [subscriptions] is read by the service but written by
    no code of the repository: [None] is an item without that attribute.
    Instants ([new Date().toISOString()]) are kept as epoch milliseconds;
    [ttl] is in epoch seconds. *)
Record Connection : Type := mkConnection {
  connectionId : string;
  userId : string;
  domainName : string;
  stage : string;
  connectedAt : Z;
  ttl : Z;
  status : string;
  lastActivity : Z;
  subscriptions : option (list string)
}.

#[global] Instance Connection_eq_dec : EqDecision Connection.
Proof. solve_decision. Defined.

(** The notifications the code builds (the argument of [JSON.stringify]),
    one constructor per [type] tag; [custom] is a notification handed in by
    a caller of [notifyUser]. *)
Inductive Notification : Type :=
| partner_updated (action partnerId data : string) (timestamp : Z)
| partner_location_updated (action partnerId data : string)
    (city category : option string) (timestamp : Z)
| cache_invalidated (keys : list string) (timestamp : Z)
| connection_success (message userId : string) (timestamp : Z)
| custom (type body : string).

#[global] Instance Notification_eq_dec : EqDecision Notification.
Proof. solve_decision. Defined.

(** A JavaScript error object, with the two properties the code reads. *)
Record JsError : Type := mkError {
  statusCode : option Z;
  message : string
}.

#[global] Instance JsError_eq_dec : EqDecision JsError.
Proof. solve_decision. Defined.

(** The payload of a verified token; the handler reads [decoded.id]. *)
Record Decoded : Type := mkDecoded { id : string }.

(** ** The outside world *)

(** Calls issued to external services, in the order they are issued.  The
    [data] of a push is the notification that [JSON.stringify] is applied
    to. *)
Inductive Call : Type :=
| Scan
| Put (item : Connection)
| Delete (key : string)
| PostToConnection (endpoint : string) (target : string) (data : Notification).

#[global] Instance Call_eq_dec : EqDecision Call.
Proof. solve_decision. Defined.

(** The state a program runs in: the connections table and the calls made
    so far (most recent last). *)
Record World : Type := mkWorld {
  table : gmap string Connection;
  calls : list Call
}.

(** How the external services answer.  [None] is a request that resolves,
    [Some e] one that rejects with [e]; within one run an answer depends on
    the request only.  [jwtVerify] is [jwt.verify] with the configured
    secret: [None] when it throws.  [clock k] is the [k]-th reading of the
    system clock (epoch milliseconds) within one invocation. *)
Record Env : Type := mkEnv {
  scanAnswer : option JsError;
  putAnswer : Connection -> option JsError;
  deleteAnswer : string -> option JsError;
  postAnswer : string -> string -> Notification -> option JsError;
  jwtVerify : string -> option Decoded;
  clock : nat -> Z
}.

(** ** Promises as a state-and-exception monad *)

Inductive Settled (A : Type) : Type :=
| Fulfilled (value : A)
| Rejected (reason : JsError).
Arguments Fulfilled {A} value.
Arguments Rejected {A} reason.

Definition Prog (A : Type) : Type := World -> Settled A * World.

Definition ret {A} (a : A) : Prog A := fun w => (Fulfilled a, w).

Definition bind {A B} (m : Prog A) (k : A -> Prog B) : Prog B :=
  fun w =>
    match m w with
    | (Fulfilled a, w') => k a w'
    | (Rejected e, w') => (Rejected e, w')
    end.

(** [try { m } catch (error) { h error }] *)
Definition try_catch {A} (m : Prog A) (h : JsError -> Prog A) : Prog A :=
  fun w =>
    match m w with
    | (Fulfilled a, w') => (Fulfilled a, w')
    | (Rejected e, w') => h e w'
    end.

Declare Scope prog_scope.
Delimit Scope prog_scope with prog.
Notation "x <- m ;; k" := (bind m (fun x => k))
  (at level 100, m at next level, right associativity) : prog_scope.
Notation "m ;; k" := (bind m (fun _ => k))
  (at level 100, right associativity) : prog_scope.
Local Open Scope prog_scope.

Definition record_call (c : Call) (w : World) : World :=
  {| table := table w; calls := calls w ++ [c] |}.

(** ** The connections table (DynamoDB [DocumentClient]) *)

Module Dynamodb.

(** The items of the table, in the order a scan delivers them. *)
Definition items (t : gmap string Connection) : list Connection :=
  (map_to_list t).*2.

(** The output of a scan: [Items] is what [result.Items] reads. *)
Record ScanOutput : Type := mkScanOutput { Items : option (list Connection) }.

(** [dynamodb.scan({FilterExpression, ...}).promise()]: the whole table is
    read and the items that satisfy the filter are returned. *)
Definition scan (env : Env) (keep : Connection -> bool) : Prog ScanOutput :=
  fun w =>
    let w' := record_call Scan w in
    match scanAnswer env with
    | Some e => (Rejected e, w')
    | None => (Fulfilled {| Items := Some (List.filter keep (items (table w))) |}, w')
    end.

(** [dynamodb.put({Item}).promise()]: the item replaces whatever the
    table holds under its key. *)
Definition put (env : Env) (item : Connection) : Prog unit :=
  fun w =>
    let w' := record_call (Put item) w in
    match putAnswer env item with
    | Some e => (Rejected e, w')
    | None => (Fulfilled tt,
               {| table := <[connectionId item := item]> (table w'); calls := calls w' |})
    end.

(** [dynamodb.delete({Key}).promise()], without a condition expression:
    deleting a key that is not in the table resolves as well. *)
Definition delete (env : Env) (key : string) : Prog unit :=
  fun w =>
    let w' := record_call (Delete key) w in
    match deleteAnswer env key with
    | Some e => (Rejected e, w')
    | None => (Fulfilled tt,
               {| table := base.delete key (table w'); calls := calls w' |})
    end.

End Dynamodb.

(** ** The push transport (API Gateway management API) *)

Module ApiGateway.

(** [`${domainName}/${stage}`] *)
Definition endpoint (domainName stage : string) : string :=
  domainName +:+ "/" +:+ stage.

(** [apiGateway.postToConnection({ConnectionId, Data}).promise()] *)
Definition postToConnection (env : Env) (ep target : string) (data : Notification)
  : Prog unit :=
  fun w =>
    let w' := record_call (PostToConnection ep target data) w in
    match postAnswer env ep target data with
    | Some e => (Rejected e, w')
    | None => (Fulfilled tt, w')
    end.

End ApiGateway.

(** ** Values the asynchronous functions resolve to *)

(** Either [undefined] (a function that ends without a [return]) or the
    array [Promise.allSettled] resolves to, one entry per input promise. *)
Inductive JsValue : Type :=
| undefined
| settledResults (results : list (Settled unit)).

(** The per-connection outcomes a value carries, if it carries any. *)
Definition outcomes (v : JsValue) : option (list (Settled unit)) :=
  match v with
  | undefined => None
  | settledResults results => Some results
  end.

(** A promise observed without being awaited for its value: it settles,
    and the way it settled is the value. *)
Definition settle {A} (m : Prog A) : Prog (Settled A) :=
  fun w => let '(r, w') := m w in (Fulfilled r, w').

(** A promise that has already settled. *)
Definition settled {A} (r : Settled A) : Prog A := fun w => (r, w).

Fixpoint for_each {A B} (f : A -> Prog B) (l : list A) : Prog (list B) :=
  match l with
  | [] => ret []
  | a :: l' => b <- f a;; bs <- for_each f l';; ret (b :: bs)
  end.

(** ** [WebSocketNotificationService] *)

Module WebSocketNotificationService.

(** The value of a property of [byUser] or [byTopic].  [Count n] is the
    number [n].  [Text member ones] is a string: the text of
    [Object.prototype[member]] (a function, printed by the engine)
    followed by [ones] characters 1; it is what [+ 1] makes of a member the
    object inherits. *)
Inductive Bucket : Type :=
| Count (n : nat)
| Text (member : string) (ones : nat).

(** [stats] of [getConnectionStats]; [byUser] and [byTopic] are plain
    objects ([{}]) used as maps from a name to a count: the finite map
    holds their own properties. *)
Record Stats : Type := mkStats {
  total : nat;
  byUser : gmap string Bucket;
  byTopic : gmap string Bucket;
  timestamp : Z
}.

Definition connected (c : Connection) : bool :=
  bool_decide (status c = "connected").

(** [array.includes(x)] on an array of strings *)
Definition includes (l : list string) (x : string) : bool :=
  existsb (String.eqb x) l.

Definition getUserConnections (env : Env) (uid : string) : Prog (list Connection) :=
  result <- Dynamodb.scan env
              (fun c => bool_decide (userId c = uid) && connected c);;
  ret (default [] (Dynamodb.Items result)).

Definition getAllActiveConnections (env : Env) : Prog (list Connection) :=
  result <- Dynamodb.scan env connected;;
  ret (default [] (Dynamodb.Items result)).

(** The predicate of the filter in [getSubscriberConnections]. *)
Definition subscribed (topics : list string) (connection : Connection) : bool :=
  let subscriptions := default [] (subscriptions connection) in
  existsb (fun topic => includes subscriptions topic) topics.

Definition getSubscriberConnections (env : Env) (topics : list string)
  : Prog (list Connection) :=
  allConnections <- getAllActiveConnections env;;
  ret (List.filter (subscribed topics) allConnections).

Definition cleanupConnection (env : Env) (connectionId : string) : Prog unit :=
  try_catch (Dynamodb.delete env connectionId) (fun error => ret tt).

(** *** [sendToConnections]

    [connections.map(async (connection) => {...})] runs each task up to
    its first [await]: the request to the transport is issued, for every
    connection in turn, before any task continues.  [task_request] is
    that first half; it returns the connection with the way its request
    settles.  [task_continue] is the rest of the task: nothing more on
    success, the [catch] block on failure. *)
Definition task_request (env : Env) (notification : Notification)
    (connection : Connection) : Prog (Connection * Settled unit) :=
  r <- settle (ApiGateway.postToConnection env
                 (ApiGateway.endpoint (domainName connection) (stage connection))
                 (connectionId connection) notification);;
  ret (connection, r).

Definition task_continue (env : Env) (pending : Connection * Settled unit)
  : Prog unit :=
  let '(connection, r) := pending in
  try_catch (settled r)
    (fun error =>
       if decide (statusCode error = Some 410)
       then cleanupConnection env (connectionId connection)
       else ret tt).

(** The continuations of the tasks, run one after the other in the order
    given, each observed as [Promise.allSettled] does. *)
Definition continue_all (env : Env) (pending : list (Connection * Settled unit))
  : Prog (list (Settled unit)) :=
  for_each (fun p => settle (task_continue env p)) pending.

(** [await Promise.allSettled(tasks)] for the tasks of [sendToConnections] *)
Definition allSettled_tasks (env : Env) (connections : list Connection)
    (notification : Notification) : Prog JsValue :=
  pending <- for_each (task_request env notification) connections;;
  results <- continue_all env pending;;
  ret (settledResults results).

Definition sendToConnections (env : Env) (connections : list Connection)
    (notification : Notification) : Prog JsValue :=
  if (length connections =? 0)%nat then ret undefined
  else
    allSettled_tasks env connections notification;;
    ret undefined.

Definition broadcastToAll (env : Env) (notification : Notification) : Prog JsValue :=
  try_catch
    (connections <- getAllActiveConnections env;;
     sendToConnections env connections notification;;
     ret undefined)
    (fun error => ret undefined).

Definition broadcastToSubscribers (env : Env) (topics : list string)
    (notification : Notification) : Prog JsValue :=
  try_catch
    (connections <- getSubscriberConnections env topics;;
     sendToConnections env connections notification;;
     ret undefined)
    (fun error => ret undefined).

Definition notifyPartnerChange (env : Env) (partnerId action partnerData : string)
  : Prog JsValue :=
  try_catch
    (let notification :=
       partner_updated action partnerId partnerData (clock env 0) in
     broadcastToSubscribers env ["partners"; "partner_updates"] notification;;
     ret undefined)
    (fun error => ret undefined).

(** The topics of a partner change in [city] and [category]. *)
Definition locationTopics (city category : option string) : list string :=
  [ "partners";
    "partners_" +:+ Js.interpolate (Js.toLowerCase <$> city);
    "partners_" +:+ Js.interpolate category;
    "partners_" +:+ Js.interpolate (Js.toLowerCase <$> city) +:+ "_"
      +:+ Js.interpolate category ].

Definition notifyPartnerChangeByLocation (env : Env)
    (partnerId action partnerData : string) (city category : option string)
  : Prog JsValue :=
  try_catch
    (let notification :=
       partner_location_updated action partnerId partnerData city category
         (clock env 0) in
     let topics := locationTopics city category in
     broadcastToSubscribers env topics notification;;
     ret undefined)
    (fun error => ret undefined).

Definition notifyCacheInvalidation (env : Env) (cacheKeys : list string)
  : Prog JsValue :=
  try_catch
    (let notification := cache_invalidated cacheKeys (clock env 0) in
     broadcastToAll env notification;;
     ret undefined)
    (fun error => ret undefined).

Definition notifyUser (env : Env) (uid : string) (notification : Notification)
  : Prog JsValue :=
  try_catch
    (connections <- getUserConnections env uid;;
     if (length connections =? 0)%nat then ret undefined
     else
       sendToConnections env connections notification;;
       ret undefined)
    (fun error => ret undefined).

(** What [obj[key] = (obj[key] || 0) + 1] leaves under [key], given the
    own property [own] the object has there ([None]: it has none).  An own
    number is counted up, an own string gets a 1 appended.  Without an own
    property the read finds what the object inherits: nothing for most
    names, so that the count starts at 1; a function for the members of
    [Object.prototype], which [+ 1] turns into a string; and for
    [__proto__] the prototype itself, after which the write goes to the
    [__proto__] setter, which ignores a string: no property is made. *)
Definition bump (key : string) (own : option Bucket) : option Bucket :=
  match own with
  | Some (Count n) => Some (Count (n + 1))
  | Some (Text member ones) => Some (Text member (ones + 1))
  | None =>
    if decide (key = "__proto__") then None
    else if Js.inherited key then Some (Text key 1)
    else Some (Count 1)
  end.

(** [obj[key] = (obj[key] || 0) + 1] *)
Definition increment (key : string) (obj : gmap string Bucket)
  : gmap string Bucket :=
  partial_alter (bump key) key obj.

(** The body of [connections.forEach] in [getConnectionStats]. *)
Definition tally (stats : Stats) (connection : Connection) : Stats :=
  {| total := total stats;
     byUser := increment (userId connection) (byUser stats);
     byTopic := foldl (fun obj topic => increment topic obj) (byTopic stats)
                  (default [] (subscriptions connection));
     timestamp := timestamp stats |}.

(** [null] is [None]. *)
Definition getConnectionStats (env : Env) : Prog (option Stats) :=
  try_catch
    (connections <- getAllActiveConnections env;;
     let stats := {| total := length connections;
                     byUser := ∅;
                     byTopic := ∅;
                     timestamp := clock env 0 |} in
     ret (Some (foldl tally stats connections)))
    (fun error => ret None).

End WebSocketNotificationService.

(** ** [connectHandler] *)

Module ConnectHandler.

(** The [$connect] event, with the properties the handler reads. *)
Record RequestContext : Type := mkRequestContext {
  rc_domainName : string;
  rc_stage : string
}.

Record QueryStringParameters : Type := mkQuery { token : option string }.

Record ConnectEvent : Type := mkEvent {
  ev_connectionId : string;
  requestContext : RequestContext;
  queryStringParameters : option QueryStringParameters
}.

(** The argument of [JSON.stringify] in a response body. *)
Inductive Body : Type :=
| Message (message : string)
| InternalError (message error : string).

Record Response : Type := mkResponse {
  statusCode : Z;
  body : Body
}.

(** [verifyToken]: whatever [jwt.verify] throws becomes
    [new Error('Token invalide')]. *)
Definition verifyToken (env : Env) (token : string) : Settled Decoded :=
  let cleanToken := Js.remove_first "Bearer " token in
  match jwtVerify env cleanToken with
  | Some decoded => Fulfilled decoded
  | None => Rejected (mkError None "Token invalide")
  end.

(** The item the handler stores ([connectionData]). *)
Definition connectionData (env : Env) (event : ConnectEvent) (uid : string)
  : Connection :=
  {| connectionId := ev_connectionId event;
     userId := uid;
     domainName := rc_domainName (requestContext event);
     stage := rc_stage (requestContext event);
     connectedAt := clock env 0;
     ttl := clock env 1 / 1000 + 24 * 60 * 60;
     status := "connected";
     lastActivity := clock env 2;
     subscriptions := None |}.

Definition handler (env : Env) (event : ConnectEvent) : Prog Response :=
  let connectionId := ev_connectionId event in
  let domainName := rc_domainName (requestContext event) in
  let stage := rc_stage (requestContext event) in
  try_catch
    (let token := queryStringParameters event ≫= token in
     match token with
     | None =>
       (* [!token]: no query string, or no [token] in it *)
       ret {| statusCode := 401; body := Message "Token manquant" |}
     | Some tok =>
       if decide (tok = "")
       then (* [!token]: the empty string *)
         ret {| statusCode := 401; body := Message "Token manquant" |}
       else
         match verifyToken env tok with
         | Rejected error =>
           ret {| statusCode := 401; body := Message "Token invalide" |}
         | Fulfilled decoded =>
           let userId := id decoded in
           Dynamodb.put env (connectionData env event userId);;
           let welcomeMessage :=
             connection_success "Connexion WebSocket établie" userId (clock env 3) in
           try_catch
             (ApiGateway.postToConnection env
                (ApiGateway.endpoint domainName stage) connectionId welcomeMessage)
             (fun postError => ret tt);;
           ret {| statusCode := 200; body := Message "Connected" |}
         end
     end)
    (fun error =>
       ret {| statusCode := 500;
              body := InternalError "Erreur interne" (message error) |}).

End ConnectHandler.

(** ** Observations on a run *)

Import WebSocketNotificationService.

(** The calls a run from [w] to [w'] has added to the log. *)
Definition new_calls (w w' : World) : list Call :=
  drop (length (calls w)) (calls w').

Definition is_post (c : Call) : bool :=
  match c with PostToConnection _ _ _ => true | _ => false end.

Definition is_put (c : Call) : bool :=
  match c with Put _ => true | _ => false end.

(** The request [sendToConnections] issues for a connection, and the way
    the transport answers it. *)
Definition request_of (notification : Notification) (c : Connection) : Call :=
  PostToConnection (ApiGateway.endpoint (domainName c) (stage c))
    (connectionId c) notification.

Definition answer_of (env : Env) (notification : Notification) (c : Connection)
  : option JsError :=
  postAnswer env (ApiGateway.endpoint (domainName c) (stage c))
    (connectionId c) notification.

Definition settled_answer (env : Env) (notification : Notification)
    (c : Connection) : Settled unit :=
  match answer_of env notification c with
  | None => Fulfilled tt
  | Some e => Rejected e
  end.

(** The transport answered with the status code of an endpoint that is
    gone for good. *)
Definition gone (r : Settled unit) : bool :=
  match r with
  | Fulfilled _ => false
  | Rejected e => bool_decide (statusCode e = Some 410)
  end.

(** The effect on the table of one delete request for [key]. *)
Definition reap (env : Env) (t : gmap string Connection) (key : string)
  : gmap string Connection :=
  match deleteAnswer env key with
  | None => delete key t
  | Some _ => t
  end.

(** The keys of the pending tasks whose request came back gone. *)
Definition gone_keys (pending : list (Connection * Settled unit)) : list string :=
  (connectionId ∘ fst) <$> List.filter (fun p => gone p.2) pending.

(** The table's key of every item is the item's [connectionId]. *)
Definition wf_table (t : gmap string Connection) : Prop :=
  ∀ k c, t !! k = Some c → connectionId c = k.

(** The property an object that started empty has under [key] after [n]
    increments of that key: none after none, the count [n] for a name the
    object does not inherit, the text of the inherited member with [n]
    characters 1 for a member of [Object.prototype], and never any for
    [__proto__]. *)
Definition tallied (key : string) (n : nat) : option Bucket :=
  if decide (key = "__proto__") then None
  else if (n =? 0)%nat then None
  else if Js.inherited key then Some (Text key n)
  else Some (Count n).

(** The rows of a table with status connected, by the literal the scan
    filters on. *)
Definition rows_connected (t : gmap string Connection) : list Connection :=
  List.filter (fun c => bool_decide (status c = "connected")) (Dynamodb.items t).

(** Number of occurrences of [key] in a list of names. *)
Definition occurrences (key : string) (l : list string) : nat :=
  length (List.filter (String.eqb key) l).

(** The tasks of [sendToConnections] once every request has been issued. *)
Definition pending_of (env : Env) (notification : Notification)
    (connections : list Connection) : list (Connection * Settled unit) :=
  (fun c => (c, settled_answer env notification c)) <$> connections.

Definition is_post_to (key : string) (c : Call) : bool :=
  match c with
  | PostToConnection _ target _ => bool_decide (target = key)
  | _ => false
  end.

(** ** Example data *)

Definition conn (cid uid : string) (subs : option (list string)) : Connection :=
  {| connectionId := cid; userId := uid;
     domainName := "ws.perkup.example"; stage := "prod";
     connectedAt := 1700000000000; ttl := 1700086400;
     status := "connected"; lastActivity := 1700000000000;
     subscriptions := subs |}.

Definition table_of (l : list Connection) : gmap string Connection :=
  foldr (fun c t => <[connectionId c := c]> t) ∅ l.

(** Every service answers; the token ["good"] belongs to user ["u1"]. *)
Definition env_ok : Env :=
  {| scanAnswer := None;
     putAnswer := fun _ => None;
     deleteAnswer := fun _ => None;
     postAnswer := fun _ _ _ => None;
     jwtVerify := fun t => if decide (t = "good") then Some {| id := "u1" |} else None;
     clock := fun k => 1700000000123 + Z.of_nat k |}.

Definition with_post (env : Env)
    (answer : string -> string -> Notification -> option JsError) : Env :=
  {| scanAnswer := scanAnswer env; putAnswer := putAnswer env;
     deleteAnswer := deleteAnswer env; postAnswer := answer;
     jwtVerify := jwtVerify env; clock := clock env |}.

Definition with_delete (env : Env) (answer : string -> option JsError) : Env :=
  {| scanAnswer := scanAnswer env; putAnswer := putAnswer env;
     deleteAnswer := answer; postAnswer := postAnswer env;
     jwtVerify := jwtVerify env; clock := clock env |}.

Definition with_put (env : Env) (answer : Connection -> option JsError) : Env :=
  {| scanAnswer := scanAnswer env; putAnswer := answer;
     deleteAnswer := deleteAnswer env; postAnswer := postAnswer env;
     jwtVerify := jwtVerify env; clock := clock env |}.

Definition with_scan (env : Env) (answer : option JsError) : Env :=
  {| scanAnswer := answer; putAnswer := putAnswer env;
     deleteAnswer := deleteAnswer env; postAnswer := postAnswer env;
     jwtVerify := jwtVerify env; clock := clock env |}.

Definition GoneException : JsError := mkError (Some 410) "GoneException".
Definition ServiceUnavailable : JsError := mkError (Some 503) "Service Unavailable".

(** The transport finds the connection [key] gone and delivers to all
    others. *)
Definition env_gone (key : string) : Env :=
  with_post env_ok
    (fun _ target _ => if decide (target = key) then Some GoneException else None).

Definition c1 : Connection := conn "c1" "u1" (Some ["partners"]).
Definition c2 : Connection := conn "c2" "u1" (Some ["partners"; "c1"]).
Definition c3 : Connection := conn "c3" "u2" (Some ["c1"]).

Definition note : Notification := cache_invalidated ["partners:list"] 1700000000123.

Definition three : World := {| table := table_of [c1; c2; c3]; calls := [] |}.

(** The token an admission event presents: [event.queryStringParameters?.token]. *)
Definition presented_token (event : ConnectHandler.ConnectEvent) : option string :=
  ConnectHandler.queryStringParameters event ≫= ConnectHandler.token.

(** The payload of the presented token when the token is valid: present,
    not empty, and accepted by [jwt.verify] once the first ["Bearer "] is
    removed.  [None] covers the missing, the malformed and the expired
    token. *)
Definition verified (env : Env) (event : ConnectHandler.ConnectEvent) : option Decoded :=
  match presented_token event with
  | None => None
  | Some tok =>
    if decide (tok = "") then None
    else jwtVerify env (Js.remove_first "Bearer " tok)
  end.

(** The welcome message of the admission handler and the request that
    carries it. *)
Definition welcomeMessage (env : Env) (uid : string) : Notification :=
  connection_success "Connexion WebSocket établie" uid (clock env 3).

Definition welcome_endpoint (event : ConnectHandler.ConnectEvent) : string :=
  ApiGateway.endpoint
    (ConnectHandler.rc_domainName (ConnectHandler.requestContext event))
    (ConnectHandler.rc_stage (ConnectHandler.requestContext event)).

Definition welcome_request (env : Env) (event : ConnectHandler.ConnectEvent)
    (uid : string) : Call :=
  PostToConnection (welcome_endpoint event)
    (ConnectHandler.ev_connectionId event) (welcomeMessage env uid).

Definition connect_event (cid : string) (tok : option string)
  : ConnectHandler.ConnectEvent :=
  {| ConnectHandler.ev_connectionId := cid;
     ConnectHandler.requestContext :=
       {| ConnectHandler.rc_domainName := "ws.perkup.example";
          ConnectHandler.rc_stage := "prod" |};
     ConnectHandler.queryStringParameters :=
       Some {| ConnectHandler.token := tok |} |}.

Definition empty_world : World := {| table := ∅; calls := [] |}.

(** The live connections of a table: what the scan of
    [getAllActiveConnections] delivers. *)
Definition live (t : gmap string Connection) : list Connection :=
  List.filter connected (Dynamodb.items t).

(** The topics a connection is subscribed to; none when the attribute is
    absent. *)
Definition topics_of (c : Connection) : list string :=
  default [] (subscriptions c).

Definition paris_food : list string :=
  ["partners"; "partners_paris"; "partners_food"; "partners_paris_food"].

Definition c_paris : Connection := conn "c4" "u3" (Some ["news"; "partners_paris"]).
Definition c_lyon : Connection := conn "c5" "u4" (Some ["partners_lyon"]).
Definition c_bare : Connection := conn "c6" "u1" None.

Definition cities : World :=
  {| table := table_of [c1; c3; c_paris; c_lyon]; calls := [] |}.

(** The transport finds [c2] gone and fails on [c3] with status 503. *)
Definition env_gone_c2_down_c3 : Env :=
  with_post env_ok (fun _ target _ =>
    if decide (target = "c2") then Some GoneException
    else if decide (target = "c3") then Some ServiceUnavailable else None).

(** ** Partner pricing

    The discount arithmetic of the partner handlers
    ([searchPartnersHandler], [getPartnersHandler], [getPartnerHandler]).
    Discounts are whole percentages, kept as integers. *)

Module PartnerHandler.

(** A JavaScript number as the discount arithmetic produces it: a whole
    number or [NaN]. *)
Inductive JsNumber : Type :=
| Num (z : Z)
| NaN.

(** What reading a property of an object literal gives: a number of the
    literal's own, a member inherited from [Object.prototype] (a function,
    or the prototype itself under [__proto__]), or [undefined]. *)
Inductive Property : Type :=
| Own (z : Z)
| FromPrototype
| Undefined.

(** [maxDiscounts[userPlan]] *)
Definition maxDiscounts (userPlan : string) : Property :=
  if decide (userPlan = "basic") then Own 5
  else if decide (userPlan = "super") then Own 10
  else if decide (userPlan = "premium") then Own 100
  else if Js.inherited userPlan then FromPrototype
  else Undefined.

(** [Math.min(partnerDiscount, maxDiscounts[userPlan] || 0)]: an inherited
    member is truthy and no number, and the minimum with it is [NaN]. *)
Definition calculateUserDiscount (partnerDiscount : Z) (userPlan : string)
  : JsNumber :=
  if decide (userPlan = "premium") then Num partnerDiscount
  else
    match maxDiscounts userPlan with
    | Own maxDiscount =>
      Num (Z.min partnerDiscount (if decide (maxDiscount = 0) then 0 else maxDiscount))
    | FromPrototype => NaN
    | Undefined => Num (Z.min partnerDiscount 0)
    end.

(** What [SubscriptionCache.getSubscriptionFeatures] delivers, with the
    two properties the handlers read. *)
Record SubscriptionFeatures : Type := mkFeatures {
  isActive : bool;
  plan : string
}.

(** [subscriptionFeatures?.isActive ? subscriptionFeatures.plan : 'free'] *)
Definition userPlanOf (subscriptionFeatures : option SubscriptionFeatures) : string :=
  match subscriptionFeatures with
  | Some features => if isActive features then plan features else "free"
  | None => "free"
  end.

(** The fields the three handlers derive from a partner's discount. *)
Definition isPremiumOnly (discount : Z) : bool := (15 <? discount)%Z.

Definition canAccessFullDiscount (discount : Z) (userPlan : string) : bool :=
  bool_decide (userPlan = "premium")
  || (discount <=? (if decide (userPlan = "super") then 10
                    else if decide (userPlan = "basic") then 5 else 0))%Z.

Definition needsSubscription (discount : Z) (userPlan : string) : bool :=
  bool_decide (userPlan = "free") && (0 <? discount)%Z.

End PartnerHandler.

(** ** Further observations *)

(** The live connections of one user: what the scan of
    [getUserConnections] delivers. *)
Definition user_live (uid : string) (t : gmap string Connection) : list Connection :=
  List.filter (fun c => bool_decide (userId c = uid) && connected c)
    (Dynamodb.items t).

(** No row of the table has the [subscriptions] attribute. *)
Definition unsubscribed (t : gmap string Connection) : Prop :=
  ∀ k c, t !! k = Some c → subscriptions c = None.

(** The number a bucket holds; a string counts for nothing. *)
Definition count_of (b : Bucket) : nat :=
  match b with
  | Count n => n
  | Text _ _ => 0%nat
  end.

(** The sum of the numbers an object holds. *)
Definition sum_counts (obj : gmap string Bucket) : nat :=
  map_fold (fun _ b acc => (count_of b + acc)%nat) 0%nat obj.

(** Every number of the object sits under a name the object does not
    inherit, every string under a name it inherits. *)
Definition sorted_buckets (obj : gmap string Bucket) : Prop :=
  ∀ k b, obj !! k = Some b →
         match b with
         | Count _ => Js.inherited k = false
         | Text _ _ => Js.inherited k = true
         end.

(** Two characters are the same up to the case of an ASCII letter. *)
Definition same_up_to_case (a b : ascii) : Prop :=
  let na := nat_of_ascii a in
  let nb := nat_of_ascii b in
  na = nb
  ∨ ((65 <= na <= 90)%nat ∧ nb = (na + 32)%nat)
  ∨ ((65 <= nb <= 90)%nat ∧ na = (nb + 32)%nat).

(** A connected row owned by [constructor] and subscribed to [__proto__]
    and to partners, and a connected row owned by [__proto__] that has no
    subscriptions. *)
Definition c_odd : Connection :=
  conn "c8" "constructor" (Some ["__proto__"; "partners"]).
Definition c_proto : Connection := conn "c10" "__proto__" None.

(** The connection ids the push requests of a log are addressed to. *)
Definition post_targets (cs : list Call) : list string :=
  cs ≫= fun c => match c with PostToConnection _ target _ => [target] | _ => [] end.

(** Whether the row of a live connection is reaped by a broadcast of
    [notification]: its push is answered gone and the table accepts the
    delete. *)
Definition reaped_by (env : Env) (notification : Notification) (c : Connection)
  : bool :=
  gone (settled_answer env notification c)
  && bool_decide (deleteAnswer env (connectionId c) = None).

(** Every entry point is a scan followed, when the scan resolves, by one
    [sendToConnections] over some of the scanned rows. *)
Inductive Broadcast (env : Env) (w : World) : Settled JsValue * World -> Prop :=
| broadcast_scan_failed e :
    scanAnswer env = Some e →
    Broadcast env w (Fulfilled undefined, record_call Scan w)
| broadcast_sent targets notification :
    scanAnswer env = None →
    (∀ c, c ∈ targets → c ∈ live (table w)) →
    Broadcast env w
      (sendToConnections env targets notification (record_call Scan w)).

(** The clock of a later invocation. *)
Definition with_clock (env : Env) (readings : nat -> Z) : Env :=
  {| scanAnswer := scanAnswer env; putAnswer := putAnswer env;
     deleteAnswer := deleteAnswer env; postAnswer := postAnswer env;
     jwtVerify := jwtVerify env; clock := readings |}.

Definition c_closing : Connection :=
  {| connectionId := "c7"; userId := "u1";
     domainName := "ws.perkup.example"; stage := "prod";
     connectedAt := 1700000000000; ttl := 1700086400;
     status := "closing"; lastActivity := 1700000000000;
     subscriptions := Some ["partners"] |}.

Definition mixed : World :=
  {| table := table_of [c1; c2; c3; c_bare; c_closing]; calls := [] |}.

(** * Properties *)

(** ** The broadcaster *)

Lemma task_request_run env notification c w :
  task_request env notification c w =
  (Fulfilled (c, settled_answer env notification c),
   record_call (request_of notification c) w).
Proof.
  unfold task_request, bind, settle, ret, ApiGateway.postToConnection,
    settled_answer, answer_of, request_of.
  destruct (postAnswer env _ _ _); reflexivity.
Qed.

Lemma requests_run env notification connections w :
  for_each (task_request env notification) connections w =
  (Fulfilled ((fun c => (c, settled_answer env notification c)) <$> connections),
   {| table := table w;
      calls := calls w ++ (request_of notification <$> connections) |}).
Proof.
  revert w. induction connections as [|c cs IH]; intros w; simpl.
  - unfold ret. rewrite app_nil_r. by destruct w.
  - unfold bind at 1. rewrite task_request_run.
    unfold bind at 1. rewrite IH. unfold ret. simpl.
    by rewrite <- app_assoc.
Qed.

Lemma cleanupConnection_run env key w :
  cleanupConnection env key w =
  (Fulfilled tt,
   {| table := reap env (table w) key; calls := calls w ++ [Delete key] |}).
Proof.
  unfold cleanupConnection, try_catch, Dynamodb.delete, reap, ret.
  destruct (deleteAnswer env key); reflexivity.
Qed.

Lemma task_continue_run env p w :
  task_continue env p w =
  (Fulfilled tt,
   if gone p.2
   then {| table := reap env (table w) (connectionId p.1);
           calls := calls w ++ [Delete (connectionId p.1)] |}
   else w).
Proof.
  destruct p as [c [[]|e]]; simpl; [reflexivity|].
  unfold try_catch, settled. simpl.
  destruct (decide (statusCode e = Some 410)) as [H|H].
  - rewrite cleanupConnection_run. by rewrite bool_decide_eq_true_2.
  - by rewrite bool_decide_eq_false_2.
Qed.

Lemma continue_all_run env pending w :
  continue_all env pending w =
  (Fulfilled ((fun _ => Fulfilled tt) <$> pending),
   {| table := foldl (reap env) (table w) (gone_keys pending);
      calls := calls w ++ (Delete <$> gone_keys pending) |}).
Proof.
  unfold continue_all. revert w.
  induction pending as [|p ps IH]; intros w; simpl.
  - unfold ret, gone_keys. simpl. rewrite app_nil_r. by destruct w.
  - unfold bind at 1, settle at 1. rewrite task_continue_run.
    unfold bind at 1. rewrite IH. unfold ret, gone_keys. simpl.
    destruct (gone p.2); simpl; [|reflexivity].
    by rewrite <- app_assoc.
Qed.

Lemma allSettled_tasks_run env connections notification w :
  allSettled_tasks env connections notification w =
  (Fulfilled (settledResults ((fun _ => Fulfilled tt) <$> connections)),
   {| table := foldl (reap env) (table w)
                 (gone_keys (pending_of env notification connections));
      calls := calls w ++ (request_of notification <$> connections)
                 ++ (Delete <$> gone_keys (pending_of env notification connections)) |}).
Proof.
  unfold allSettled_tasks, bind. rewrite requests_run, continue_all_run.
  unfold ret, pending_of. simpl.
  by rewrite <- list_fmap_compose, <- app_assoc.
Qed.

Lemma sendToConnections_run env connections notification w :
  sendToConnections env connections notification w =
  (Fulfilled undefined,
   {| table := foldl (reap env) (table w)
                 (gone_keys (pending_of env notification connections));
      calls := calls w ++ (request_of notification <$> connections)
                 ++ (Delete <$> gone_keys (pending_of env notification connections)) |}).
Proof.
  unfold sendToConnections. destruct connections as [|c cs].
  - simpl. unfold ret. destruct w. simpl. by rewrite app_nil_r.
  - change (length (c :: cs) =? 0)%nat with false. cbv iota.
    unfold bind. by rewrite allSettled_tasks_run.
Qed.

Lemma lookup_foldl_reap env keys (t : gmap string Connection) k :
  foldl (reap env) t keys !! k =
  if decide (k ∈ keys ∧ deleteAnswer env k = None) then None else t !! k.
Proof.
  revert t. induction keys as [|k0 ks IH]; intros t; cbn [foldl].
  - destruct (decide _) as [[H _]|_]; [|done]. by apply elem_of_nil in H.
  - rewrite IH. unfold reap.
    destruct (decide (k ∈ ks ∧ _)) as [[Hin Hd]|Hn1];
      destruct (decide (k ∈ k0 :: ks ∧ _)) as [[Hin' Hd']|Hn2]; try done.
    + exfalso. apply Hn2. split; [by right|done].
    + apply elem_of_cons in Hin' as [->|Hin']; [|exfalso; by apply Hn1].
      rewrite Hd'. apply lookup_delete_eq.
    + destruct (decide (k = k0)) as [->|Hne].
      * destruct (deleteAnswer env k0) eqn:Hd; [done|].
        exfalso. apply Hn2. split; [by left|done].
      * destruct (deleteAnswer env k0); [done|]. by rewrite lookup_delete_ne.
Qed.

(** The continuations of the tasks may run in any order: the table they
    leave is the same. *)
Lemma continue_all_any_order env pending pending' w :
  pending ≡ₚ pending' →
  table (continue_all env pending w).2 = table (continue_all env pending' w).2.
Proof.
  intros Hp. rewrite !continue_all_run. simpl.
  apply map_eq. intros k. rewrite !lookup_foldl_reap.
  assert (Hiff : k ∈ gone_keys pending ↔ k ∈ gone_keys pending').
  { unfold gone_keys. rewrite !list_elem_of_fmap.
    split; intros (p & -> & Hin); exists p; (split; [done|]);
      apply list_elem_of_In, filter_In; apply list_elem_of_In, filter_In in Hin;
      destruct Hin as [Hin Hg]; (split; [|done]); apply list_elem_of_In;
      apply list_elem_of_In in Hin; [by rewrite <- Hp | by rewrite Hp]. }
  destruct (decide (k ∈ gone_keys pending ∧ _)) as [[H1 H2]|H1];
    destruct (decide (k ∈ gone_keys pending' ∧ _)) as [[H3 H4]|H3]; try done;
    exfalso; [apply H3|apply H1]; (split; [by apply Hiff|done]).
Qed.

Lemma new_calls_app w cs t :
  new_calls w {| table := t; calls := calls w ++ cs |} = cs.
Proof. unfold new_calls. simpl. by rewrite drop_app_length. Qed.

Lemma gone_keys_pending_of env notification connections k :
  k ∈ gone_keys (pending_of env notification connections) ↔
  ∃ c, c ∈ connections ∧ connectionId c = k
       ∧ gone (settled_answer env notification c) = true.
Proof.
  unfold gone_keys, pending_of. rewrite list_elem_of_fmap. split.
  - intros ([c r] & -> & Hin). apply list_elem_of_In, filter_In in Hin.
    destruct Hin as [Hin Hg]. apply list_elem_of_In, list_elem_of_fmap in Hin.
    destruct Hin as (c' & [= -> ->] & Hc'). simpl in *. eauto.
  - intros (c & Hc & <- & Hg). exists (c, settled_answer env notification c).
    split; [done|]. apply list_elem_of_In, filter_In. split; [|done].
    apply list_elem_of_In, list_elem_of_fmap. eauto.
Qed.

(** ** The table stays keyed by connection id *)

Lemma wf_table_empty : wf_table ∅.
Proof. intros k c Hk. by rewrite lookup_empty in Hk. Qed.

Lemma wf_table_insert (t : gmap string Connection) c :
  wf_table t → wf_table (<[connectionId c := c]> t).
Proof.
  intros Hwf k c' Hk. destruct (decide (connectionId c = k)) as [<-|Hne].
  - rewrite lookup_insert_eq in Hk. by injection Hk as <-.
  - rewrite lookup_insert_ne in Hk by done. by apply Hwf.
Qed.

Lemma wf_table_reap env (t : gmap string Connection) key :
  wf_table t → wf_table (reap env t key).
Proof.
  intros Hwf. unfold reap. destruct (deleteAnswer env key); [done|].
  intros k c Hk. apply lookup_delete_Some in Hk as [_ Hk]. by apply Hwf.
Qed.

Lemma wf_table_of (l : list Connection) : wf_table (table_of l).
Proof.
  induction l as [|c l IH]; [apply wf_table_empty|].
  by apply wf_table_insert.
Qed.

Lemma sendToConnections_wf env connections notification w :
  wf_table (table w) →
  wf_table (table (sendToConnections env connections notification w).2).
Proof.
  rewrite sendToConnections_run. cbn [snd table].
  generalize (gone_keys (pending_of env notification connections)).
  intros keys. revert w. induction keys as [|k keys IH]; intros w Hwf; [done|].
  cbn [foldl].
  apply (IH {| table := reap env (table w) k; calls := calls w |}).
  by apply wf_table_reap.
Qed.

Lemma NoDup_fmap_List_filter {A B} (f : A -> B) (p : A -> bool) (l : list A) :
  NoDup (f <$> l) → NoDup (f <$> List.filter p l).
Proof.
  induction l as [|a l IH]; [done|].
  rewrite fmap_cons. intros [Hna Hnd]%NoDup_cons. cbn [List.filter].
  destruct (p a); [|by apply IH].
  rewrite fmap_cons. apply NoDup_cons. split; [|by apply IH].
  intros Hin. apply Hna. apply list_elem_of_fmap in Hin as (x & -> & Hx).
  apply list_elem_of_fmap_2. apply list_elem_of_In, filter_In in Hx as [Hx _].
  by apply list_elem_of_In.
Qed.

(** The connections a scan delivers have pairwise distinct ids. *)
Lemma live_NoDup_ids (t : gmap string Connection) :
  wf_table t → NoDup (connectionId <$> live t).
Proof.
  intros Hwf. unfold live. apply NoDup_fmap_List_filter.
  unfold Dynamodb.items. rewrite <- list_fmap_compose.
  assert (Heq : (connectionId ∘ snd) <$> map_to_list t = (map_to_list t).*1).
  { apply list_fmap_ext. intros i [k c] Hin. cbn.
    apply list_elem_of_lookup_2, elem_of_map_to_list in Hin. by apply Hwf. }
  rewrite Heq. apply NoDup_fst_map_to_list.
Qed.

(** C1, as the code has it: for every list of target connections, every
    notification and every way the transport and the table answer, one
    call to [sendToConnections] issues exactly one push request per
    connection, in the order of the list and before any reaping; it
    never rejects; the join it awaits settles one outcome per connection,
    all fulfilled, and the call ends in the world that join leaves.  The
    outcomes are dropped: the call resolves to [undefined]. *)
Theorem sendToConnections_settles_every_task
    (env : Env) (connections : list Connection) (notification : Notification)
    (w : World) :
  ∃ (results : list (Settled unit)) (reaped : list string) (w' : World),
    sendToConnections env connections notification w = (Fulfilled undefined, w')
    ∧ allSettled_tasks env connections notification w
      = (Fulfilled (settledResults results), w')
    ∧ length results = length connections
    ∧ Forall (fun r => r = Fulfilled tt) results
    ∧ new_calls w w'
      = (request_of notification <$> connections) ++ (Delete <$> reaped)
    ∧ List.filter is_post (new_calls w w') = request_of notification <$> connections.
Proof.
  exists ((fun _ => Fulfilled tt) <$> connections),
    (gone_keys (pending_of env notification connections)).
  eexists. rewrite sendToConnections_run, allSettled_tasks_run.
  split; [reflexivity|]. split; [reflexivity|].
  rewrite new_calls_app, length_fmap. split; [done|].
  split; [by apply Forall_fmap, Forall_true|]. split; [done|].
  rewrite List.filter_app.
  assert (H1 : ∀ l : list Connection,
    List.filter is_post (request_of notification <$> l) = request_of notification <$> l).
  { induction l as [|c l IH]; [done|]. simpl. f_equal. exact IH. }
  assert (H2 : ∀ l : list string, List.filter is_post (Delete <$> l) = []).
  { induction l as [|k l IH]; [done|]. exact IH. }
  by rewrite H1, H2, app_nil_r.
Qed.

(** C1 fails as stated: with three target connections, of which the
    second is gone, the call resolves to [undefined] and carries no
    per-connection outcome, let alone three. *)
Lemma sendToConnections_yields_no_outcomes :
  let r := sendToConnections (env_gone "c2") [c1; c2; c3] note three in
  r.1 = Fulfilled undefined
  ∧ outcomes undefined = None
  ∧ ¬ (∃ results, r.1 = Fulfilled (settledResults results) ∧ length results = 3%nat).
Proof.
  split; [by vm_compute|]. split; [done|].
  intros (results & H & _). vm_compute in H. discriminate H.
Qed.

(** ** Reaping *)

Lemma NoDup_fmap_elem_eq {A B} (f : A -> B) (l : list A) (x y : A) :
  NoDup (f <$> l) → x ∈ l → y ∈ l → f x = f y → x = y.
Proof.
  induction l as [|a l IH]; intros Hnd Hx Hy Hf.
  - by apply elem_of_nil in Hx.
  - rewrite fmap_cons in Hnd. apply NoDup_cons in Hnd as [Hna Hnd].
    apply elem_of_cons in Hx as [->|Hx]; apply elem_of_cons in Hy as [->|Hy].
    + done.
    + exfalso. apply Hna. rewrite Hf. by apply list_elem_of_fmap_2.
    + exfalso. apply Hna. rewrite <- Hf. by apply list_elem_of_fmap_2.
    + by apply IH.
Qed.

Lemma posts_to_requests notification (l : list Connection) k :
  length (List.filter (is_post_to k) (request_of notification <$> l))
  = length (List.filter (fun c => bool_decide (connectionId c = k)) l).
Proof.
  induction l as [|a l IH]; [done|].
  rewrite fmap_cons. cbn [List.filter].
  change (is_post_to k (request_of notification a))
    with (bool_decide (connectionId a = k)).
  destruct (bool_decide (connectionId a = k)); cbn [length]; by rewrite IH.
Qed.

Lemma posts_to_deletes (l : list string) k :
  List.filter (is_post_to k) (Delete <$> l) = [].
Proof. induction l as [|a l IH]; [done|]. exact IH. Qed.

Lemma one_connection_per_key (l : list Connection) c :
  NoDup (connectionId <$> l) → c ∈ l →
  length (List.filter (fun c' => bool_decide (connectionId c' = connectionId c)) l)
  = 1%nat.
Proof.
  induction l as [|a l IH]; intros Hnd Hc.
  - by apply elem_of_nil in Hc.
  - rewrite fmap_cons in Hnd. apply NoDup_cons in Hnd as [Hna Hnd].
    cbn [List.filter].
    assert (Hnone : ∀ k, k ∉ connectionId <$> l →
      List.filter (fun c' => bool_decide (connectionId c' = k)) l = []).
    { clear. intros k. induction l as [|b l IH]; intros Hk; [done|].
      rewrite fmap_cons in Hk. apply not_elem_of_cons in Hk as [Hne Hk].
      cbn [List.filter]. rewrite bool_decide_eq_false_2 by done. by apply IH. }
    apply elem_of_cons in Hc as [->|Hc].
    + rewrite bool_decide_eq_true_2 by done. cbn [length].
      by rewrite Hnone.
    + rewrite bool_decide_eq_false_2.
      * by apply IH.
      * intros Heq. apply Hna. rewrite Heq. by apply list_elem_of_fmap_2.
Qed.

(** C4, as the code has it: in one call to [sendToConnections] over
    connections with distinct ids, for every target whose push fails, a
    delete of its row is requested if and only if the error carries status
    410; the row is then removed when the table accepts the delete and is
    kept when the table rejects it; after any other failure the row is
    what it was; and the target receives exactly one push request. *)
Theorem sendToConnections_reaps_exactly_the_gone
    (env : Env) (connections : list Connection) (notification : Notification)
    (w : World) (c : Connection) (e : JsError) :
  NoDup (connectionId <$> connections) →
  c ∈ connections →
  answer_of env notification c = Some e →
  let w' := (sendToConnections env connections notification w).2 in
  let k := connectionId c in
  (statusCode e = Some 410 ↔ Delete k ∈ new_calls w w')
  ∧ (statusCode e = Some 410 → deleteAnswer env k = None → table w' !! k = None)
  ∧ (statusCode e = Some 410 → deleteAnswer env k ≠ None →
     table w' !! k = table w !! k)
  ∧ (statusCode e ≠ Some 410 → table w' !! k = table w !! k)
  ∧ length (List.filter (is_post_to k) (new_calls w w')) = 1%nat.
Proof.
  intros Hnd Hc He w' k. subst w'. rewrite sendToConnections_run.
  cbn [snd table]. rewrite new_calls_app.
  assert (Hgone : k ∈ gone_keys (pending_of env notification connections)
                  ↔ statusCode e = Some 410).
  { rewrite gone_keys_pending_of. split.
    - intros (c' & Hc' & Hk & Hg).
      assert (c' = c) as -> by (by eapply NoDup_fmap_elem_eq).
      unfold settled_answer in Hg. rewrite He in Hg.
      by apply bool_decide_eq_true in Hg.
    - intros H410. exists c. split; [done|]. split; [done|].
      unfold settled_answer. rewrite He. by apply bool_decide_eq_true. }
  split; [|split; [|split; [|split]]].
  - rewrite <- Hgone, elem_of_app, !list_elem_of_fmap. split.
    + intros Hk. right. by exists k.
    + intros [(c' & Heq & _)|(k' & [= ->] & Hk)]; [discriminate Heq|done].
  - intros H410 Hok. rewrite lookup_foldl_reap.
    destruct (decide _) as [_|Hn]; [done|]. exfalso. apply Hn.
    split; [by apply Hgone|done].
  - intros _ Hrej. rewrite lookup_foldl_reap.
    destruct (decide _) as [[_ Hok]|_]; [by rewrite Hok in Hrej|done].
  - intros Hne. rewrite lookup_foldl_reap.
    destruct (decide _) as [[Hk _]|_]; [|done]. by apply Hgone in Hk.
  - rewrite List.filter_app, length_app, posts_to_deletes, posts_to_requests.
    cbn [length]. rewrite Nat.add_0_r. by apply one_connection_per_key.
Qed.

(** C4 at three connections: [c2] is gone, the push to [c3] fails with
    503, the table accepts deletes. *)
Lemma sendToConnections_reaps_c2 :
  let w' := (sendToConnections env_gone_c2_down_c3 [c1; c2; c3] note three).2 in
  (statusCode GoneException = Some 410 ↔ Delete "c2" ∈ new_calls three w')
  ∧ (statusCode GoneException = Some 410 →
     deleteAnswer env_gone_c2_down_c3 "c2" = None → table w' !! "c2" = None)
  ∧ (statusCode GoneException = Some 410 →
     deleteAnswer env_gone_c2_down_c3 "c2" ≠ None →
     table w' !! "c2" = table three !! "c2")
  ∧ (statusCode GoneException ≠ Some 410 → table w' !! "c2" = table three !! "c2")
  ∧ length (List.filter (is_post_to "c2") (new_calls three w')) = 1%nat.
Proof.
  apply (sendToConnections_reaps_exactly_the_gone
           env_gone_c2_down_c3 [c1; c2; c3] note three c2 GoneException).
  - apply (bool_decide_unpack _). vm_compute. reflexivity.
  - apply (bool_decide_unpack _). vm_compute. reflexivity.
  - reflexivity.
Defined.

(** C4 fails as stated: the push to [c2] fails with status 410, the table
    rejects the delete, and the row of [c2] is still there when the call
    returns. *)
Lemma gone_row_survives_a_rejected_delete :
  let env := with_delete (env_gone "c2") (fun _ => Some ServiceUnavailable) in
  let w' := (sendToConnections env [c2] note three).2 in
  (∃ e, answer_of env note c2 = Some e ∧ statusCode e = Some 410)
  ∧ table w' !! "c2" = Some c2.
Proof.
  split; [by exists GoneException|]. by vm_compute.
Qed.

(** ** Admission *)

Section Admission.
Import ConnectHandler.

Variable env : Env.
Variable event : ConnectEvent.

Lemma handler_run_valid (w : World) (decoded : Decoded) :
  verified env event = Some decoded →
  handler env event w =
  let item := connectionData env event (id decoded) in
  match putAnswer env item with
  | Some e =>
    (Fulfilled {| statusCode := 500;
                  body := InternalError "Erreur interne" (message e) |},
     record_call (Put item) w)
  | None =>
    (Fulfilled {| statusCode := 200; body := Message "Connected" |},
     {| table := <[ev_connectionId event := item]> (table w);
        calls := calls w ++ [Put item; welcome_request env event (id decoded)] |})
  end.
Proof.
  unfold verified, presented_token, handler. intros Hv.
  destruct (queryStringParameters event ≫= token) as [tok|]; [|discriminate Hv].
  destruct (decide (tok = "")) as [|Hne]; [discriminate Hv|].
  unfold verifyToken. rewrite Hv. cbv zeta.
  unfold try_catch, bind, Dynamodb.put, ApiGateway.postToConnection, ret.
  destruct (putAnswer env _); [reflexivity|].
  cbn [record_call table calls].
  unfold welcome_request, welcomeMessage, welcome_endpoint.
  destruct (postAnswer env _ _ _); unfold record_call; cbn [table calls];
    by rewrite <- app_assoc.
Qed.

Lemma handler_run_invalid (w : World) :
  verified env event = None →
  ∃ reason, handler env event w =
            (Fulfilled {| statusCode := 401; body := Message reason |}, w).
Proof.
  unfold verified, presented_token, handler. intros Hv.
  destruct (queryStringParameters event ≫= token) as [tok|];
    [|by exists "Token manquant"].
  destruct (decide (tok = "")) as [|Hne]; [by exists "Token manquant"|].
  unfold verifyToken. rewrite Hv. by exists "Token invalide".
Qed.

End Admission.

(** C2, as the code has it: for every admission event with a valid
    token the handler requests exactly one write, of a connection with
    status connected whose expiry is the clock reading in whole seconds
    plus 86400 (24 hours); when the table accepts the write, that row is
    stored under the event's connection id and the response is 200; when
    the table rejects it, nothing is stored and the response is 500.  For
    every event with a missing, malformed or expired token the world is
    left as it was (no write) and the response is 401. *)
Theorem handler_admits_on_valid_token_only
    (env : Env) (event : ConnectHandler.ConnectEvent) (w : World) :
  let r := ConnectHandler.handler env event w in
  (∀ decoded, verified env event = Some decoded →
     let item := ConnectHandler.connectionData env event (id decoded) in
     status item = "connected"
     ∧ ttl item = clock env 1 / 1000 + 86400
     ∧ clock env 1 + 86400000 - 1000 < ttl item * 1000 <= clock env 1 + 86400000
     ∧ List.filter is_put (new_calls w r.2) = [Put item]
     ∧ (putAnswer env item = None →
        (∃ b, r.1 = Fulfilled {| ConnectHandler.statusCode := 200;
                                 ConnectHandler.body := b |})
        ∧ table r.2 = <[ConnectHandler.ev_connectionId event := item]> (table w))
     ∧ (putAnswer env item ≠ None →
        (∃ b, r.1 = Fulfilled {| ConnectHandler.statusCode := 500;
                                 ConnectHandler.body := b |})
        ∧ table r.2 = table w))
  ∧ (verified env event = None →
     (∃ b, r.1 = Fulfilled {| ConnectHandler.statusCode := 401;
                              ConnectHandler.body := b |})
     ∧ r.2 = w).
Proof.
  intros r. subst r. split.
  - intros decoded Hv item. rewrite (handler_run_valid env event w decoded Hv).
    cbv zeta. fold item. split; [done|]. split; [done|]. split.
    { change (ttl item) with (clock env 1 / 1000 + 24 * 60 * 60).
      pose proof (Z.div_mod (clock env 1) 1000 ltac:(done)) as Hdm.
      pose proof (Z.mod_pos_bound (clock env 1) 1000 ltac:(done)) as Hb.
      lia. }
    destruct (putAnswer env item) as [e|] eqn:Hp.
    + cbn [fst snd]. unfold record_call. rewrite new_calls_app.
      split; [reflexivity|]. split; [done|].
      intros _. split; [by eexists|done].
    + cbn [fst snd]. rewrite new_calls_app.
      split; [reflexivity|]. split; [|done].
      intros _. split; [by eexists|done].
  - intros Hv. destruct (handler_run_invalid env event w Hv) as [reason ->].
    split; [by eexists|done].
Qed.

(** C2 at two events: a valid bearer token is admitted, an unknown token
    is refused. *)
Lemma handler_admits_good_refuses_expired :
  (let event := connect_event "c9" (Some "Bearer good") in
   let r := ConnectHandler.handler env_ok event empty_world in
   (∃ b, r.1 = Fulfilled {| ConnectHandler.statusCode := 200;
                            ConnectHandler.body := b |})
   ∧ table r.2
     = <["c9" := ConnectHandler.connectionData env_ok event "u1"]> ∅)
  ∧ (let event := connect_event "c9" (Some "expired") in
     let r := ConnectHandler.handler env_ok event empty_world in
     (∃ b, r.1 = Fulfilled {| ConnectHandler.statusCode := 401;
                              ConnectHandler.body := b |})
     ∧ r.2 = empty_world).
Proof.
  split.
  - destruct (handler_admits_on_valid_token_only env_ok
                (connect_event "c9" (Some "Bearer good")) empty_world)
      as [Hvalid _].
    destruct (Hvalid {| id := "u1" |}) as (_ & _ & _ & _ & Hok & _).
    + vm_compute. reflexivity.
    + apply Hok. reflexivity.
  - destruct (handler_admits_on_valid_token_only env_ok
                (connect_event "c9" (Some "expired")) empty_world)
      as [_ Hinvalid].
    apply Hinvalid. vm_compute. reflexivity.
Defined.

(** C2 fails as stated: the token is valid, the table rejects the write,
    and the handler answers 500 with nothing stored. *)
Lemma valid_token_rejected_write_is_500 :
  let env := with_put env_ok (fun _ => Some ServiceUnavailable) in
  let event := connect_event "c9" (Some "Bearer good") in
  let r := ConnectHandler.handler env event empty_world in
  verified env event = Some {| id := "u1" |}
  ∧ r.1 = Fulfilled {| ConnectHandler.statusCode := 500;
                       ConnectHandler.body :=
                         ConnectHandler.InternalError "Erreur interne"
                           "Service Unavailable" |}
  ∧ table r.2 = ∅.
Proof. split; [|split]; by vm_compute. Qed.

(** C8: for every admission event with a valid token whose write the
    table accepts, if the welcome push fails, whatever the error, the
    handler still answers 200 with body Connected, the new row is in the
    table as written, the only calls made are that one write and that one
    push, and the whole outcome is the one of a run in which the push is
    delivered. *)
Theorem handler_welcome_failure_keeps_admission
    (env : Env) (event : ConnectHandler.ConnectEvent) (w : World)
    (decoded : Decoded) (e : JsError) :
  verified env event = Some decoded →
  let item := ConnectHandler.connectionData env event (id decoded) in
  putAnswer env item = None →
  postAnswer env (welcome_endpoint event) (ConnectHandler.ev_connectionId event)
    (welcomeMessage env (id decoded)) = Some e →
  let r := ConnectHandler.handler env event w in
  r.1 = Fulfilled {| ConnectHandler.statusCode := 200;
                     ConnectHandler.body := ConnectHandler.Message "Connected" |}
  ∧ table r.2 = <[ConnectHandler.ev_connectionId event := item]> (table w)
  ∧ table r.2 !! ConnectHandler.ev_connectionId event = Some item
  ∧ new_calls w r.2 = [Put item; welcome_request env event (id decoded)]
  ∧ r = ConnectHandler.handler (with_post env (fun _ _ _ => None)) event w.
Proof.
  intros Hv item Hput Hpost r. subst r.
  rewrite (handler_run_valid env event w decoded Hv).
  rewrite (handler_run_valid (with_post env (fun _ _ _ => None)) event w decoded Hv).
  cbv zeta. fold item.
  change (putAnswer (with_post env (fun _ _ _ => None))
            (ConnectHandler.connectionData (with_post env (fun _ _ _ => None))
               event (id decoded)))
    with (putAnswer env item).
  rewrite Hput. cbn [fst snd table]. rewrite new_calls_app.
  split; [done|]. split; [done|]. split; [apply lookup_insert_eq|].
  split; done.
Qed.

(** C8 at one event: the welcome push to the new connection fails with
    status 410, and the connection stays admitted. *)
Lemma handler_admits_despite_gone_welcome :
  let env := env_gone "c9" in
  let event := connect_event "c9" (Some "Bearer good") in
  let r := ConnectHandler.handler env event empty_world in
  r.1 = Fulfilled {| ConnectHandler.statusCode := 200;
                     ConnectHandler.body := ConnectHandler.Message "Connected" |}
  ∧ table r.2 = <["c9" := ConnectHandler.connectionData env event "u1"]> ∅
  ∧ table r.2 !! "c9" = Some (ConnectHandler.connectionData env event "u1")
  ∧ new_calls empty_world r.2
    = [Put (ConnectHandler.connectionData env event "u1");
       welcome_request env event "u1"]
  ∧ r = ConnectHandler.handler (with_post env (fun _ _ _ => None)) event empty_world.
Proof.
  apply (handler_welcome_failure_keeps_admission (env_gone "c9")
           (connect_event "c9" (Some "Bearer good")) empty_world
           {| id := "u1" |} GoneException).
  - vm_compute. reflexivity.
  - vm_compute. reflexivity.
  - vm_compute. reflexivity.
Defined.

(** ** The topic router *)

Lemma elem_of_items (t : gmap string Connection) c :
  c ∈ Dynamodb.items t ↔ ∃ k, t !! k = Some c.
Proof.
  unfold Dynamodb.items. rewrite list_elem_of_fmap. split.
  - intros ([k c'] & -> & Hin). exists k. by apply elem_of_map_to_list.
  - intros [k Hk]. exists (k, c). split; [done|]. by apply elem_of_map_to_list.
Qed.

Lemma elem_of_List_filter {A} (f : A -> bool) (l : list A) x :
  x ∈ List.filter f l ↔ x ∈ l ∧ f x = true.
Proof. rewrite !list_elem_of_In. apply filter_In. Qed.

Lemma elem_of_live (t : gmap string Connection) c :
  c ∈ live t ↔ (∃ k, t !! k = Some c) ∧ status c = "connected".
Proof.
  unfold live. rewrite elem_of_List_filter, elem_of_items.
  unfold connected. by rewrite bool_decide_eq_true.
Qed.

Lemma includes_spec (l : list string) x : includes l x = true ↔ x ∈ l.
Proof.
  unfold includes. rewrite existsb_exists. split.
  - intros (y & Hy & Heq). apply String.eqb_eq in Heq as ->.
    by apply list_elem_of_In.
  - intros Hx. exists x. split; [by apply list_elem_of_In|apply String.eqb_refl].
Qed.

Lemma subscribed_spec (topics : list string) c :
  subscribed topics c = true ↔ ∃ topic, topic ∈ topics ∧ topic ∈ topics_of c.
Proof.
  unfold subscribed, topics_of. rewrite existsb_exists. split.
  - intros (topic & Hin & Hinc). exists topic.
    split; [by apply list_elem_of_In|by apply includes_spec].
  - intros (topic & Hin & Hsub). exists topic.
    split; [by apply list_elem_of_In|by apply includes_spec].
Qed.

Lemma getAllActiveConnections_run env w :
  getAllActiveConnections env w =
  match scanAnswer env with
  | Some e => (Rejected e, record_call Scan w)
  | None => (Fulfilled (live (table w)), record_call Scan w)
  end.
Proof.
  unfold getAllActiveConnections, bind, Dynamodb.scan, ret.
  by destruct (scanAnswer env).
Qed.

Lemma getSubscriberConnections_run env topics w :
  getSubscriberConnections env topics w =
  match scanAnswer env with
  | Some e => (Rejected e, record_call Scan w)
  | None => (Fulfilled (List.filter (subscribed topics) (live (table w))),
             record_call Scan w)
  end.
Proof.
  unfold getSubscriberConnections, bind. rewrite getAllActiveConnections_run.
  by destruct (scanAnswer env).
Qed.

(** C3: whenever the scan of the table resolves, for every table and every
    list of topics, [getSubscriberConnections] resolves to the live
    connections filtered by the subscription test; a connection is in the
    result exactly when it is a row of the table with status connected
    that has a topic in common with the given ones; for no topics the
    result is empty; and the table is not changed. *)
Theorem getSubscriberConnections_selects_intersecting
    (env : Env) (topics : list string) (w : World) :
  scanAnswer env = None →
  ∃ selected,
    (getSubscriberConnections env topics w).1 = Fulfilled selected
    ∧ selected = List.filter (subscribed topics) (live (table w))
    ∧ (∀ c, c ∈ selected ↔
            (∃ k, table w !! k = Some c) ∧ status c = "connected"
            ∧ ∃ topic, topic ∈ topics ∧ topic ∈ topics_of c)
    ∧ (topics = [] → selected = [])
    ∧ table (getSubscriberConnections env topics w).2 = table w.
Proof.
  intros Hscan. rewrite getSubscriberConnections_run, Hscan.
  eexists. split; [reflexivity|]. split; [reflexivity|]. split; [|split].
  - intros c. rewrite elem_of_List_filter, elem_of_live, subscribed_spec.
    split; [intros [[H1 H2] H3]|intros (H1 & H2 & H3)]; done.
  - intros ->. induction (live (table w)) as [|c l IH]; [done|]. exact IH.
  - done.
Qed.

(** C3 on a table of four connections, for the topics of a partner
    change in Paris and for no topic at all. *)
Lemma getSubscriberConnections_selects_paris :
  (∃ selected,
     (getSubscriberConnections env_ok ["partners_paris"] cities).1 = Fulfilled selected
     ∧ selected = List.filter (subscribed ["partners_paris"]) (live (table cities))
     ∧ (∀ c, c ∈ selected ↔
             (∃ k, table cities !! k = Some c) ∧ status c = "connected"
             ∧ ∃ topic, topic ∈ ["partners_paris"] ∧ topic ∈ topics_of c)
     ∧ (["partners_paris"] = [] → selected = [])
     ∧ table (getSubscriberConnections env_ok ["partners_paris"] cities).2
       = table cities)
  ∧ (getSubscriberConnections env_ok ["partners_paris"] cities).1 = Fulfilled [c_paris]
  ∧ (getSubscriberConnections env_ok [] cities).1 = Fulfilled [].
Proof.
  split; [|split].
  - apply (getSubscriberConnections_selects_intersecting
             env_ok ["partners_paris"] cities).
    reflexivity.
  - vm_compute. reflexivity.
  - vm_compute. reflexivity.
Defined.

(** ** Broadcasting to topics *)

Lemma broadcastToSubscribers_run env topics notification w :
  scanAnswer env = None →
  broadcastToSubscribers env topics notification w =
  sendToConnections env (List.filter (subscribed topics) (live (table w)))
    notification (record_call Scan w).
Proof.
  intros Hscan. unfold broadcastToSubscribers, try_catch, bind.
  rewrite getSubscriberConnections_run, Hscan.
  by rewrite sendToConnections_run.
Qed.

Lemma notifyPartnerChangeByLocation_run env partnerId action partnerData
    city category w :
  scanAnswer env = None →
  notifyPartnerChangeByLocation env partnerId action partnerData city category w =
  sendToConnections env
    (List.filter (subscribed (locationTopics city category)) (live (table w)))
    (partner_location_updated action partnerId partnerData city category
       (clock env 0))
    (record_call Scan w).
Proof.
  intros Hscan. unfold notifyPartnerChangeByLocation, try_catch, bind.
  cbv zeta. rewrite (broadcastToSubscribers_run _ _ _ _ Hscan).
  by rewrite sendToConnections_run.
Qed.

Lemma posts_of_requests_and_deletes notification (l : list Connection)
    (keys : list string) :
  List.filter is_post ((request_of notification <$> l) ++ (Delete <$> keys))
  = request_of notification <$> l.
Proof.
  rewrite List.filter_app.
  assert (H1 : List.filter is_post (request_of notification <$> l)
               = request_of notification <$> l).
  { induction l as [|c l' IH]; [done|]. simpl. f_equal. exact IH. }
  assert (H2 : List.filter is_post (Delete <$> keys) = []).
  { induction keys as [|k l' IH]; [done|]. exact IH. }
  by rewrite H1, H2, app_nil_r.
Qed.

(** C5: whenever the scan of the table resolves, a partner change for
    city Paris and category food is pushed to exactly the connections
    selected for the four topics partners, partners_paris, partners_food
    and partners_paris_food: the push requests of the call are the requests
    for those connections, a connection is among them exactly when it is a
    live row subscribed to at least one of the four, a connection whose
    topics all lie outside the four is not among them, and in a table keyed
    by connection id no push request is addressed to such a row. *)
Theorem notifyPartnerChangeByLocation_targets_paris_food
    (env : Env) (partnerId action partnerData : string) (w : World) :
  scanAnswer env = None →
  let notification :=
    partner_location_updated action partnerId partnerData
      (Some "Paris") (Some "food") (clock env 0) in
  let w' := (notifyPartnerChangeByLocation env partnerId action partnerData
               (Some "Paris") (Some "food") w).2 in
  locationTopics (Some "Paris") (Some "food") = paris_food
  ∧ ∃ targets,
      List.filter is_post (new_calls w w') = request_of notification <$> targets
      ∧ (∀ c, c ∈ targets ↔
              (∃ k, table w !! k = Some c) ∧ status c = "connected"
              ∧ ∃ topic, topic ∈ paris_food ∧ topic ∈ topics_of c)
      ∧ (∀ c, (∀ topic, topic ∈ topics_of c → topic ∉ paris_food) → c ∉ targets)
      ∧ (wf_table (table w) →
         ∀ k c, table w !! k = Some c →
                (∀ topic, topic ∈ topics_of c → topic ∉ paris_food) →
                List.filter (is_post_to k) (new_calls w w') = []).
Proof.
  intros Hscan notification w'. subst w'.
  rewrite (notifyPartnerChangeByLocation_run _ _ _ _ _ _ _ Hscan).
  fold notification. rewrite sendToConnections_run. cbn [snd].
  change (calls (record_call Scan w)) with (calls w ++ [Scan]).
  rewrite <- app_assoc, new_calls_app.
  change (locationTopics (Some "Paris") (Some "food")) with paris_food.
  split; [done|].
  set (targets := List.filter (subscribed paris_food) (live (table w))).
  assert (Hin : ∀ c, c ∈ targets ↔
            (∃ k, table w !! k = Some c) ∧ status c = "connected"
            ∧ ∃ topic, topic ∈ paris_food ∧ topic ∈ topics_of c).
  { intros c. unfold targets.
    rewrite elem_of_List_filter, elem_of_live, subscribed_spec.
    split; [intros [[H1 H2] H3]|intros (H1 & H2 & H3)]; done. }
  assert (Hout : ∀ c, (∀ topic, topic ∈ topics_of c → topic ∉ paris_food) →
                      c ∉ targets).
  { intros c Hc Hc'. apply Hin in Hc' as (_ & _ & topic & H4 & Htopic).
    by apply (Hc topic). }
  exists targets. split; [|split; [done|split; [done|]]].
  - cbn [app List.filter is_post]. apply posts_of_requests_and_deletes.
  - intros Hwf k c Hk Hc.
    cbn [app List.filter is_post_to].
    rewrite List.filter_app, posts_to_deletes, app_nil_r.
    destruct (List.filter (is_post_to k) (request_of notification <$> targets))
      as [|call rest] eqn:Hf; [done|exfalso].
    assert (Hcall : call ∈ List.filter (is_post_to k)
                             (request_of notification <$> targets))
      by (rewrite Hf; left).
    apply elem_of_List_filter in Hcall as [Hcall Hto].
    apply list_elem_of_fmap in Hcall as (c' & -> & Hc').
    apply bool_decide_eq_true in Hto.
    pose proof Hc' as Hc''. apply Hin in Hc'' as ([k' Hk'] & _).
    pose proof (Hwf _ _ Hk') as Hkey. rewrite Hto in Hkey. subst k'.
    assert (c' = c) as -> by congruence.
    by apply (Hout c).
Qed.

(** C5 on a table with a connection subscribed to partners_paris and one
    subscribed to partners_lyon only: the first receives the push, the
    second receives none. *)
Lemma notifyPartnerChangeByLocation_reaches_paris_not_lyon :
  let notification :=
    partner_location_updated "updated" "p1" "{}" (Some "Paris") (Some "food")
      (clock env_ok 0) in
  let w' := (notifyPartnerChangeByLocation env_ok "p1" "updated" "{}"
               (Some "Paris") (Some "food") cities).2 in
  locationTopics (Some "Paris") (Some "food") = paris_food
  ∧ List.filter (is_post_to "c5") (new_calls cities w') = []
  ∧ List.filter (is_post_to "c4") (new_calls cities w')
    = [request_of notification c_paris].
Proof.
  destruct (notifyPartnerChangeByLocation_targets_paris_food
              env_ok "p1" "updated" "{}" cities)
    as (Htopics & targets & _ & _ & _ & Hnone).
  - reflexivity.
  - split; [exact Htopics|]. split.
    + apply (Hnone (wf_table_of _) "c5" c_lyon).
      * vm_compute. reflexivity.
      * intros topic Hin. apply list_elem_of_In in Hin.
        destruct Hin as [<-|[]].
        apply (bool_decide_unpack _). vm_compute. reflexivity.
    + vm_compute. reflexivity.
Defined.

(** ** Statistics *)

Lemma occurrences_cons key k l :
  occurrences k (key :: l)
  = ((if String.eqb k key then 1 else 0) + occurrences k l)%nat.
Proof. unfold occurrences. cbn [List.filter]. by destruct (String.eqb k key). Qed.

Lemma occurrences_app k l1 l2 :
  occurrences k (l1 ++ l2) = (occurrences k l1 + occurrences k l2)%nat.
Proof. unfold occurrences. by rewrite List.filter_app, length_app. Qed.

Lemma occurrences_pos k l : (0 < occurrences k l)%nat ↔ k ∈ l.
Proof.
  induction l as [|a l IH].
  - split; [by inversion 1|by intros ?%elem_of_nil].
  - rewrite occurrences_cons, elem_of_cons.
    destruct (String.eqb_spec k a) as [->|Hne].
    + split; [by left|simpl; lia].
    + cbn [Nat.add]. rewrite IH. split; [by right|].
      by intros [?|?].
Qed.

Lemma occurrences_NoDup k l :
  NoDup l → occurrences k l = if includes l k then 1%nat else 0%nat.
Proof.
  induction 1 as [|a l Hna Hnd IH]; [done|].
  rewrite occurrences_cons. unfold includes in *. cbn [existsb].
  destruct (String.eqb_spec k a) as [->|Hne]; cbn [orb].
  - assert (H0 : occurrences a l = 0%nat).
    { destruct (occurrences a l) eqn:Ho; [done|].
      exfalso. apply Hna, occurrences_pos. lia. }
    by rewrite H0.
  - by rewrite IH.
Qed.

Lemma lookup_increment key (obj : gmap string Bucket) k :
  increment key obj !! k = if decide (k = key) then bump k (obj !! k) else obj !! k.
Proof.
  unfold increment. destruct (decide (k = key)) as [->|Hne].
  - apply lookup_partial_alter_eq.
  - by apply lookup_partial_alter_ne.
Qed.

(** The property under [k] after a run of increments: [bump k] applied as
    often as [k] occurs among the keys. *)
Lemma lookup_foldl_increment (keys : list string) (obj : gmap string Bucket) k :
  foldl (fun o key => increment key o) obj keys !! k
  = Nat.iter (occurrences k keys) (bump k) (obj !! k).
Proof.
  revert obj. induction keys as [|key keys IH]; intros obj; cbn [foldl].
  - done.
  - rewrite IH, lookup_increment, occurrences_cons.
    destruct (String.eqb_spec k key) as [->|Hne].
    + rewrite decide_True by done. by rewrite Nat.iter_succ_r.
    + by rewrite decide_False.
Qed.

Lemma iter_bump_None k n : Nat.iter n (bump k) None = tallied k n.
Proof.
  unfold tallied. destruct (decide (k = "__proto__")) as [Hp|Hp].
  - induction n as [|n IH]; [done|]. rewrite Nat.iter_succ, IH. cbn [bump].
    by rewrite decide_True.
  - destruct n as [|n]; [done|]. change (S n =? 0)%nat with false. cbv iota.
    induction n as [|n IH].
    + rewrite Nat.iter_succ. cbn [Nat.iter nat_rect bump]. by rewrite decide_False.
    + rewrite Nat.iter_succ, IH. destruct (Js.inherited k); cbn [bump]; by rewrite Nat.add_1_r.
Qed.

Lemma lookup_tally_from_empty (keys : list string) k :
  foldl (fun o key => increment key o) ∅ keys !! k = tallied k (occurrences k keys).
Proof. by rewrite lookup_foldl_increment, lookup_empty, iter_bump_None. Qed.

Lemma foldl_tally (stats : Stats) (cs : list Connection) :
  foldl tally stats cs =
  {| total := total stats;
     byUser := foldl (fun o key => increment key o) (byUser stats) (userId <$> cs);
     byTopic := foldl (fun o key => increment key o) (byTopic stats)
                  (cs ≫= topics_of);
     timestamp := timestamp stats |}.
Proof.
  revert stats. induction cs as [|c cs IH]; intros stats.
  - by destruct stats.
  - cbn [foldl]. rewrite IH. rewrite bind_cons, foldl_app. reflexivity.
Qed.

Lemma getConnectionStats_run env w :
  getConnectionStats env w =
  match scanAnswer env with
  | Some e => (Fulfilled None, record_call Scan w)
  | None =>
    (Fulfilled (Some (foldl tally
                        {| total := length (live (table w)); byUser := ∅;
                           byTopic := ∅; timestamp := clock env 0 |}
                        (live (table w)))),
     record_call Scan w)
  end.
Proof.
  unfold getConnectionStats, try_catch, bind.
  rewrite getAllActiveConnections_run. by destruct (scanAnswer env).
Qed.

Lemma occurrences_owners u (cs : list Connection) :
  occurrences u (userId <$> cs)
  = length (List.filter (fun c => bool_decide (userId c = u)) cs).
Proof.
  induction cs as [|c cs IH]; [done|].
  rewrite fmap_cons, occurrences_cons. cbn [List.filter].
  destruct (String.eqb_spec u (userId c)) as [->|Hne].
  - rewrite bool_decide_eq_true_2 by done. cbn [length]. by rewrite IH.
  - rewrite bool_decide_eq_false_2 by done. by rewrite IH.
Qed.

Lemma occurrences_subscribers t (cs : list Connection) :
  (∀ c, c ∈ cs → NoDup (topics_of c)) →
  occurrences t (cs ≫= topics_of)
  = length (List.filter (fun c => includes (topics_of c) t) cs).
Proof.
  induction cs as [|c cs IH]; intros Hnd; [done|].
  rewrite bind_cons, occurrences_app. cbn [List.filter].
  rewrite occurrences_NoDup by (apply Hnd; left).
  rewrite IH by (intros c' Hc'; apply Hnd; by right).
  by destruct (includes (topics_of c) t).
Qed.

(** The scan's filter is the test of the status against the literal. *)
Lemma live_rows_connected (t : gmap string Connection) : live t = rows_connected t.
Proof. reflexivity. Qed.

(** C6: the snapshot miscounts the names every object inherits.  For the
    table of one connected row owned by [constructor] and subscribed to
    [__proto__] and to partners, [total] is 1, but the bucket of the owner
    holds a string, not the count 1, and [byTopic] has a bucket for
    partners and none for [__proto__]. *)
Theorem getConnectionStats_miscounts_inherited_names :
  let stats :=
    {| total := 1;
       byUser := {[ "constructor" := Text "constructor" 1 ]};
       byTopic := {[ "partners" := Count 1 ]};
       timestamp := clock env_ok 0 |} in
  (getConnectionStats env_ok {| table := table_of [c_odd]; calls := [] |}).1
  = Fulfilled (Some stats)
  ∧ byUser stats !! "constructor" ≠ Some (Count 1)
  ∧ byTopic stats !! "__proto__" = None.
Proof.
  split; [by vm_compute|]. split; [by vm_compute|by vm_compute].
Qed.

(** X27: whenever the scan resolves, the snapshot of
    [getConnectionStats] is this, for every table.  [total] is the number
    of rows whose status is connected.  Under a user id, [byUser] has what
    as many increments as that user has connected rows leave: for an id
    that no object inherits, the count of those rows, and no bucket when
    there are none.  Under a topic, [byTopic] has what as many increments
    as the topic occurs among the subscriptions of the connected rows
    leave; when no row lists a topic twice that number is the number of
    connected rows subscribed to the topic.  Under a name every object
    inherits the bucket is a string, and under [__proto__] there is none.
    For the table of (u1, {partners}), (u1, {partners, c1}) and
    (u2, {c1}) the snapshot is total 3, byUser {u1: 2, u2: 1}, byTopic
    {partners: 2, c1: 2}. *)
Theorem getConnectionStats_counts_live_connections (env : Env) (w : World) :
  scanAnswer env = None →
  ∃ stats,
    (getConnectionStats env w).1 = Fulfilled (Some stats)
    ∧ total stats = length (rows_connected (table w))
    ∧ (∀ u, byUser stats !! u
            = tallied u (length (List.filter (fun c => bool_decide (userId c = u))
                                   (rows_connected (table w)))))
    ∧ (∀ t, byTopic stats !! t
            = tallied t (occurrences t (rows_connected (table w) ≫= topics_of)))
    ∧ ((∀ c, c ∈ rows_connected (table w) → NoDup (topics_of c)) →
       ∀ t, byTopic stats !! t
            = tallied t (length (List.filter (fun c => includes (topics_of c) t)
                                   (rows_connected (table w)))))
    ∧ (∀ key n, Js.inherited key = false →
                tallied key n = if (n =? 0)%nat then None else Some (Count n))
    ∧ ∀ log,
        (getConnectionStats env {| table := table_of [c1; c2; c3]; calls := log |}).1
        = Fulfilled (Some {| total := 3;
                             byUser := <["u1" := Count 2]> (<["u2" := Count 1]> ∅);
                             byTopic := <["partners" := Count 2]>
                                          (<["c1" := Count 2]> ∅);
                             timestamp := clock env 0 |}).
Proof.
  intros Hscan. rewrite getConnectionStats_run, Hscan.
  eexists. split; [reflexivity|].
  rewrite foldl_tally. cbn [total byUser byTopic]. rewrite !live_rows_connected.
  split; [done|]. split; [|split; [|split; [|split]]].
  - intros u. by rewrite lookup_tally_from_empty, occurrences_owners.
  - intros t. by rewrite lookup_tally_from_empty.
  - intros Hnd t. by rewrite lookup_tally_from_empty, occurrences_subscribers.
  - intros key n Hkey. unfold tallied. rewrite Hkey.
    destruct (decide (key = "__proto__")) as [->|_]; [discriminate Hkey|done].
  - intros log. rewrite getConnectionStats_run, Hscan. cbn [fst table].
    vm_compute. reflexivity.
Qed.

(** X27 on a table with a row that is closing: it is not counted. *)
Lemma getConnectionStats_counts_mixed :
  ∃ stats,
    (getConnectionStats env_ok mixed).1 = Fulfilled (Some stats)
    ∧ total stats = 4%nat
    ∧ byUser stats !! "u1" = Some (Count 3)
    ∧ byUser stats !! "u2" = Some (Count 1)
    ∧ byTopic stats !! "partners" = Some (Count 2)
    ∧ byTopic stats !! "c1" = Some (Count 2).
Proof.
  destruct (getConnectionStats_counts_live_connections env_ok mixed)
    as (stats & Hrun & Htotal & Huser & Htopic & _).
  - reflexivity.
  - exists stats. split; [exact Hrun|].
    split; [rewrite Htotal; vm_compute; reflexivity|].
    split; [rewrite Huser; vm_compute; reflexivity|].
    split; [rewrite Huser; vm_compute; reflexivity|].
    split; rewrite Htopic; vm_compute; reflexivity.
Defined.

(** ** Rows without subscriptions *)

Lemma List_filter_Permutation {A} (f : A -> bool) (l l' : list A) :
  l ≡ₚ l' → List.filter f l ≡ₚ List.filter f l'.
Proof.
  induction 1 as [|x l l' _ IH|x y l|l l' l'' _ IH1 _ IH2]; cbn [List.filter].
  - done.
  - destruct (f x); by rewrite IH.
  - destruct (f x), (f y); try done. apply perm_swap.
  - by rewrite IH1.
Qed.

Lemma occurrences_Permutation k (l l' : list string) :
  l ≡ₚ l' → occurrences k l = occurrences k l'.
Proof.
  intros Hp. unfold occurrences.
  apply Permutation_length. by apply List_filter_Permutation.
Qed.

Lemma live_insert (t : gmap string Connection) k c :
  t !! k = None → status c = "connected" →
  live (<[k := c]> t) ≡ₚ c :: live t.
Proof.
  intros Hk Hc. unfold live, Dynamodb.items.
  rewrite (List_filter_Permutation _ _ (c :: (map_to_list t).*2)).
  - cbn [List.filter]. unfold connected at 1.
    by rewrite bool_decide_eq_true_2.
  - rewrite (map_to_list_insert t k c Hk). by rewrite fmap_cons.
Qed.

Lemma subscribed_absent topics c :
  subscriptions c = None → subscribed topics c = false.
Proof.
  intros Hs. unfold subscribed. rewrite Hs. cbn [default].
  induction topics as [|t ts IH]; [done|]. exact IH.
Qed.

(** C9: a row without subscriptions is not always counted in the bucket
    of its owner.  For the table of one connected row owned by
    [__proto__] and without the [subscriptions] attribute, the router
    selects nothing and [byTopic] is empty, [total] is 1, but [byUser] has
    no bucket for the owner. *)
Theorem absent_subscriptions_owner_bucket_is_lost :
  let w := {| table := table_of [c_proto]; calls := [] |} in
  subscriptions c_proto = None
  ∧ (getSubscriberConnections env_ok ["partners"] w).1 = Fulfilled []
  ∧ (getConnectionStats env_ok w).1
    = Fulfilled (Some {| total := 1; byUser := ∅; byTopic := ∅;
                         timestamp := clock env_ok 0 |})
  ∧ (∅ : gmap string Bucket) !! userId c_proto = None.
Proof.
  split; [done|]. split; [by vm_compute|]. split; [by vm_compute|done].
Qed.

(** X28: a row without the [subscriptions] attribute is subscribed to
    nothing.  The test of the router is false on it for every list of
    topics, so no result of [getSubscriberConnections] contains it.  In
    the statistics such a row, with status connected and stored under a
    fresh id, adds one to [total], leaves [byTopic] and the buckets of all
    other owners as they were, and puts under its owner what one more
    increment leaves there: for an owner whose id no object inherits, a
    count one higher than before. *)
Theorem absent_subscriptions_count_no_topic
    (env : Env) (w : World) (c : Connection) :
  subscriptions c = None →
  (∀ topics, subscribed topics c = false)
  ∧ (∀ topics selected,
       (getSubscriberConnections env topics w).1 = Fulfilled selected →
       c ∉ selected)
  ∧ (∀ stats, byTopic (tally stats c) = byTopic stats)
  ∧ (scanAnswer env = None → status c = "connected" →
     table w !! connectionId c = None →
     ∃ before after,
       (getConnectionStats env w).1 = Fulfilled (Some before)
       ∧ (getConnectionStats env
            {| table := <[connectionId c := c]> (table w); calls := calls w |}).1
         = Fulfilled (Some after)
       ∧ total after = S (total before)
       ∧ byUser after !! userId c = bump (userId c) (byUser before !! userId c)
       ∧ (Js.inherited (userId c) = false →
          ∃ n, byUser before !! userId c
               = (if (n =? 0)%nat then None else Some (Count n))
               ∧ byUser after !! userId c = Some (Count (S n)))
       ∧ (∀ u, u ≠ userId c → byUser after !! u = byUser before !! u)
       ∧ byTopic after = byTopic before).
Proof.
  intros Hs. split; [|split; [|split]].
  - intros topics. by apply subscribed_absent.
  - intros topics selected. rewrite getSubscriberConnections_run.
    destruct (scanAnswer env); [discriminate|].
    intros [= <-] Hin. apply elem_of_List_filter in Hin as [_ Hsub].
    by rewrite subscribed_absent in Hsub.
  - intros stats. unfold tally. cbn [byTopic]. by rewrite Hs.
  - intros Hscan Hc Hfresh. rewrite !getConnectionStats_run, Hscan.
    cbn [fst table]. do 2 eexists.
    split; [reflexivity|]. split; [reflexivity|].
    rewrite !foldl_tally. cbn [total byUser byTopic].
    pose proof (live_insert (table w) (connectionId c) c Hfresh Hc) as Hp.
    assert (Hu : userId <$> live (<[connectionId c := c]> (table w))
                 ≡ₚ userId c :: (userId <$> live (table w))).
    { by rewrite Hp. }
    assert (Ht : live (<[connectionId c := c]> (table w)) ≫= topics_of
                 ≡ₚ live (table w) ≫= topics_of).
    { rewrite Hp, bind_cons. unfold topics_of at 1. by rewrite Hs. }
    assert (Hown : foldl (fun o key => increment key o) ∅
                     (userId <$> live (<[connectionId c := c]> (table w)))
                   !! userId c
                   = bump (userId c)
                       (foldl (fun o key => increment key o) ∅
                          (userId <$> live (table w)) !! userId c)).
    { rewrite !lookup_foldl_increment, (occurrences_Permutation _ _ _ Hu).
      by rewrite occurrences_cons, String.eqb_refl. }
    split; [by rewrite (Permutation_length Hp)|].
    split; [exact Hown|]. split; [|split].
    + intros Hsafe. rewrite Hown, lookup_tally_from_empty.
      exists (occurrences (userId c) (userId <$> live (table w))).
      unfold tallied. rewrite Hsafe.
      destruct (decide (userId c = "__proto__")) as [Heq|Hnp];
        [by rewrite Heq in Hsafe|].
      split; [done|].
      destruct (occurrences _ _) as [|n]; cbn [Nat.eqb bump].
      * rewrite decide_False by exact Hnp. by rewrite Hsafe.
      * by rewrite Nat.add_1_r.
    + intros u Hne. rewrite !lookup_foldl_increment.
      rewrite (occurrences_Permutation _ _ _ Hu), occurrences_cons.
      by destruct (String.eqb_spec u (userId c)).
    + apply map_eq. intros t. rewrite !lookup_foldl_increment.
      by rewrite (occurrences_Permutation _ _ _ Ht).
Qed.

(** X28 on the table of three connections and a fourth row of user u1
    that has no subscriptions attribute. *)
Lemma absent_subscriptions_row_c6 :
  (∀ topics selected,
     (getSubscriberConnections env_ok topics three).1 = Fulfilled selected →
     c_bare ∉ selected)
  ∧ ∃ before after,
      (getConnectionStats env_ok three).1 = Fulfilled (Some before)
      ∧ (getConnectionStats env_ok
           {| table := <[connectionId c_bare := c_bare]> (table three);
              calls := calls three |}).1
        = Fulfilled (Some after)
      ∧ total after = S (total before)
      ∧ (∃ n, byUser before !! "u1" = (if (n =? 0)%nat then None else Some (Count n))
              ∧ byUser after !! "u1" = Some (Count (S n)))
      ∧ byTopic after = byTopic before.
Proof.
  destruct (absent_subscriptions_count_no_topic env_ok three c_bare)
    as (_ & Hrouter & _ & Hstats).
  - reflexivity.
  - split; [exact Hrouter|].
    destruct Hstats as (before & after & Hb & Ha & Ht & _ & Hsafe & _ & Htopic).
    + reflexivity.
    + reflexivity.
    + vm_compute. reflexivity.
    + exists before, after. split; [exact Hb|]. split; [exact Ha|].
      split; [exact Ht|]. split; [|exact Htopic].
      apply Hsafe. vm_compute. reflexivity.
Defined.

(** ** Failure of the scan *)

(** C10: [getConnectionStats] never rejects.  When the scan of the table
    rejects, whatever the error, it resolves to [null] and has made that
    one call; otherwise it resolves to a snapshot whose [total] is the
    number of live rows.  The result is [null] exactly when the scan
    rejects. *)
Theorem getConnectionStats_resolves_null_on_failure (env : Env) (w : World) :
  (∀ e, scanAnswer env = Some e →
        getConnectionStats env w = (Fulfilled None, record_call Scan w))
  ∧ (∀ e, (getConnectionStats env w).1 ≠ Rejected e)
  ∧ ∃ v, (getConnectionStats env w).1 = Fulfilled v
         ∧ (v = None ↔ scanAnswer env ≠ None)
         ∧ (∀ stats, v = Some stats →
                     scanAnswer env = None
                     ∧ total stats = length (live (table w))).
Proof.
  rewrite getConnectionStats_run.
  destruct (scanAnswer env) as [e0|] eqn:Hscan.
  - split; [by intros e _|]. split; [by intros e|].
    exists None. split; [done|]. split; [done|]. by intros stats.
  - split; [by intros e|]. split; [by intros e|].
    eexists. split; [reflexivity|]. split; [by split|].
    intros stats [= <-]. split; [done|].
    by rewrite foldl_tally.
Qed.

(** C10 on a table whose scan is rejected with status 503. *)
Lemma getConnectionStats_null_when_scan_is_down :
  getConnectionStats (with_scan env_ok (Some ServiceUnavailable)) three
  = (Fulfilled None, record_call Scan three).
Proof.
  apply (proj1 (getConnectionStats_resolves_null_on_failure
                  (with_scan env_ok (Some ServiceUnavailable)) three)
           ServiceUnavailable).
  reflexivity.
Defined.

(** ** The reaper *)

(** C7: [cleanupConnection] never rejects, whatever the table answers.
    On a table that does not hold the id it changes nothing.  A second
    call that the table answers as it answered the first leaves the table
    the first call left; once a first call has had its delete accepted, a
    second call changes nothing however the table answers it; and in
    general two calls in succession leave the table without the id when
    the table accepts either delete, and as it was when it rejects both. *)
Theorem cleanupConnection_idempotent (env : Env) (key : string) (w : World) :
  (∃ w', cleanupConnection env key w = (Fulfilled tt, w'))
  ∧ (table w !! key = None → table (cleanupConnection env key w).2 = table w)
  ∧ table (cleanupConnection env key (cleanupConnection env key w).2).2
    = table (cleanupConnection env key w).2
  ∧ (∀ env', deleteAnswer env key = None →
             table (cleanupConnection env' key (cleanupConnection env key w).2).2
             = table (cleanupConnection env key w).2)
  ∧ (∀ env',
       table (cleanupConnection env' key (cleanupConnection env key w).2).2
       = match deleteAnswer env key, deleteAnswer env' key with
         | Some _, Some _ => table w
         | _, _ => delete key (table w)
         end).
Proof.
  rewrite !cleanupConnection_run. cbn [snd table].
  split; [by eexists|]. split; [|split; [|split]].
  - intros Habsent. unfold reap. destruct (deleteAnswer env key); [done|].
    by apply delete_id.
  - unfold reap. destruct (deleteAnswer env key); [done|].
    apply delete_id, lookup_delete_eq.
  - intros env' Hok. rewrite cleanupConnection_run. cbn [snd table].
    unfold reap. rewrite Hok. destruct (deleteAnswer env' key); [done|].
    apply delete_id, lookup_delete_eq.
  - intros env'. rewrite cleanupConnection_run. cbn [snd table].
    unfold reap. destruct (deleteAnswer env key), (deleteAnswer env' key);
      try done. apply delete_id, lookup_delete_eq.
Qed.

(** C7 on the table of three connections: reaping an id the table does
    not hold, and reaping [c2] twice. *)
Lemma cleanupConnection_twice_c2 :
  table (cleanupConnection env_ok "c7" three).2 = table three
  ∧ table (cleanupConnection (with_delete env_ok (fun _ => Some ServiceUnavailable))
             "c2" (cleanupConnection env_ok "c2" three).2).2
    = table (cleanupConnection env_ok "c2" three).2.
Proof.
  split.
  - destruct (cleanupConnection_idempotent env_ok "c7" three)
      as (_ & Habsent & _).
    apply Habsent. vm_compute. reflexivity.
  - destruct (cleanupConnection_idempotent env_ok "c2" three)
      as (_ & _ & _ & Hagain & _).
    apply Hagain. reflexivity.
Defined.

(** C7 fails as stated: the table rejects the delete of a first call,
    which [cleanupConnection] swallows, and accepts the delete of a second
    one; the row of [c2] is there after one call and gone after two. *)
Lemma second_reap_removes_what_a_rejected_first_left :
  let down := with_delete env_ok (fun _ => Some ServiceUnavailable) in
  let once := (cleanupConnection down "c2" three).2 in
  let twice := (cleanupConnection env_ok "c2" once).2 in
  table once !! "c2" = Some c2
  ∧ table twice !! "c2" = None
  ∧ table twice ≠ table once.
Proof.
  split; [by vm_compute|]. split; [by vm_compute|].
  intros Heq. apply (f_equal (fun t => t !! "c2")) in Heq.
  vm_compute in Heq. discriminate Heq.
Qed.

(** ** The notification entry points *)

Lemma broadcastToAll_run env notification w :
  broadcastToAll env notification w =
  match scanAnswer env with
  | Some e => (Fulfilled undefined, record_call Scan w)
  | None => sendToConnections env (live (table w)) notification (record_call Scan w)
  end.
Proof.
  unfold broadcastToAll, try_catch, bind. rewrite getAllActiveConnections_run.
  destruct (scanAnswer env); [done|]. by rewrite sendToConnections_run.
Qed.

Lemma broadcastToSubscribers_run_any env topics notification w :
  broadcastToSubscribers env topics notification w =
  match scanAnswer env with
  | Some e => (Fulfilled undefined, record_call Scan w)
  | None => sendToConnections env
              (List.filter (subscribed topics) (live (table w)))
              notification (record_call Scan w)
  end.
Proof.
  unfold broadcastToSubscribers, try_catch, bind.
  rewrite getSubscriberConnections_run.
  destruct (scanAnswer env); [done|]. by rewrite sendToConnections_run.
Qed.

Lemma getUserConnections_run env uid w :
  getUserConnections env uid w =
  match scanAnswer env with
  | Some e => (Rejected e, record_call Scan w)
  | None => (Fulfilled (user_live uid (table w)), record_call Scan w)
  end.
Proof.
  unfold getUserConnections, bind, Dynamodb.scan, ret.
  by destruct (scanAnswer env).
Qed.

Lemma notifyUser_run env uid notification w :
  notifyUser env uid notification w =
  match scanAnswer env with
  | Some e => (Fulfilled undefined, record_call Scan w)
  | None => sendToConnections env (user_live uid (table w)) notification
              (record_call Scan w)
  end.
Proof.
  unfold notifyUser, try_catch, bind. rewrite getUserConnections_run.
  destruct (scanAnswer env); [done|].
  destruct (user_live uid (table w)) as [|c cs] eqn:Hl.
  - reflexivity.
  - change (length (c :: cs) =? 0)%nat with false. cbv iota.
    rewrite !sendToConnections_run. reflexivity.
Qed.

Lemma notifyPartnerChange_run env partnerId action partnerData w :
  notifyPartnerChange env partnerId action partnerData w =
  broadcastToSubscribers env ["partners"; "partner_updates"]
    (partner_updated action partnerId partnerData (clock env 0)) w.
Proof.
  unfold notifyPartnerChange, try_catch, bind. cbv zeta.
  rewrite broadcastToSubscribers_run_any.
  destruct (scanAnswer env); [done|]. by rewrite sendToConnections_run.
Qed.

Lemma notifyPartnerChangeByLocation_run_any env partnerId action partnerData
    city category w :
  notifyPartnerChangeByLocation env partnerId action partnerData city category w =
  broadcastToSubscribers env (locationTopics city category)
    (partner_location_updated action partnerId partnerData city category
       (clock env 0)) w.
Proof.
  unfold notifyPartnerChangeByLocation, try_catch, bind. cbv zeta.
  rewrite broadcastToSubscribers_run_any.
  destruct (scanAnswer env); [done|]. by rewrite sendToConnections_run.
Qed.

Lemma notifyCacheInvalidation_run env cacheKeys w :
  notifyCacheInvalidation env cacheKeys w =
  broadcastToAll env (cache_invalidated cacheKeys (clock env 0)) w.
Proof.
  unfold notifyCacheInvalidation, try_catch, bind. cbv zeta.
  rewrite broadcastToAll_run.
  destruct (scanAnswer env); [done|]. by rewrite sendToConnections_run.
Qed.

Lemma Broadcast_subscribers env topics notification w :
  Broadcast env w (broadcastToSubscribers env topics notification w).
Proof.
  rewrite broadcastToSubscribers_run_any.
  destruct (scanAnswer env) as [e|] eqn:Hscan.
  - by eapply broadcast_scan_failed.
  - apply broadcast_sent; [done|]. intros c Hc.
    by apply elem_of_List_filter in Hc as [Hc _].
Qed.

Lemma Broadcast_all env notification w :
  Broadcast env w (broadcastToAll env notification w).
Proof.
  rewrite broadcastToAll_run.
  destruct (scanAnswer env) as [e|] eqn:Hscan.
  - by eapply broadcast_scan_failed.
  - by apply broadcast_sent.
Qed.

Lemma user_live_live uid (t : gmap string Connection) c :
  c ∈ user_live uid t ↔ c ∈ live t ∧ userId c = uid.
Proof.
  unfold user_live, live. rewrite !elem_of_List_filter, andb_true_iff.
  rewrite bool_decide_eq_true. split; [intros [? [? ?]]|intros [[? ?] ?]]; done.
Qed.

Lemma Broadcast_user env uid notification w :
  Broadcast env w (notifyUser env uid notification w).
Proof.
  rewrite notifyUser_run.
  destruct (scanAnswer env) as [e|] eqn:Hscan.
  - by eapply broadcast_scan_failed.
  - apply broadcast_sent; [done|]. intros c Hc.
    by apply user_live_live in Hc as [Hc _].
Qed.

Lemma Broadcast_resolves env w r :
  Broadcast env w r → r.1 = Fulfilled undefined.
Proof. intros [e He|targets n Hs Ht]; [done|]. by rewrite sendToConnections_run. Qed.

Lemma Broadcast_table env w r :
  Broadcast env w r →
  ∀ k, table r.2 !! k = None ∨ table r.2 !! k = table w !! k.
Proof.
  intros [e He|targets n Hs Ht] k; [by right|].
  rewrite sendToConnections_run. cbn [snd table]. rewrite lookup_foldl_reap.
  destruct (decide _); [by left|by right].
Qed.

(** X1: no entry point of the service ever rejects: whatever the table
    and the transport answer, each of the six resolves to [undefined]. *)
Theorem notifications_never_reject (env : Env) (w : World) :
  (∀ partnerId action partnerData,
     (notifyPartnerChange env partnerId action partnerData w).1 = Fulfilled undefined)
  ∧ (∀ partnerId action partnerData city category,
       (notifyPartnerChangeByLocation env partnerId action partnerData
          city category w).1 = Fulfilled undefined)
  ∧ (∀ cacheKeys, (notifyCacheInvalidation env cacheKeys w).1 = Fulfilled undefined)
  ∧ (∀ uid notification, (notifyUser env uid notification w).1 = Fulfilled undefined)
  ∧ (∀ notification, (broadcastToAll env notification w).1 = Fulfilled undefined)
  ∧ (∀ topics notification,
       (broadcastToSubscribers env topics notification w).1 = Fulfilled undefined).
Proof.
  repeat split; intros.
  - rewrite notifyPartnerChange_run.
    eapply Broadcast_resolves, Broadcast_subscribers.
  - rewrite notifyPartnerChangeByLocation_run_any.
    eapply Broadcast_resolves, Broadcast_subscribers.
  - rewrite notifyCacheInvalidation_run. eapply Broadcast_resolves, Broadcast_all.
  - eapply Broadcast_resolves, Broadcast_user.
  - eapply Broadcast_resolves, Broadcast_all.
  - eapply Broadcast_resolves, Broadcast_subscribers.
Qed.

(** X2: when the scan of the table rejects, the three readers reject
    with the error of the scan, while the six entry points swallow it:
    each resolves to [undefined] having made the scan and nothing else,
    with the table as it was. *)
Theorem scan_failure_is_swallowed_by_entry_points
    (env : Env) (w : World) (e : JsError) :
  scanAnswer env = Some e →
  (getAllActiveConnections env w = (Rejected e, record_call Scan w)
   ∧ (∀ uid, getUserConnections env uid w = (Rejected e, record_call Scan w))
   ∧ (∀ topics, getSubscriberConnections env topics w
                = (Rejected e, record_call Scan w)))
  ∧ (∀ partnerId action partnerData,
       notifyPartnerChange env partnerId action partnerData w
       = (Fulfilled undefined, record_call Scan w))
  ∧ (∀ partnerId action partnerData city category,
       notifyPartnerChangeByLocation env partnerId action partnerData city category w
       = (Fulfilled undefined, record_call Scan w))
  ∧ (∀ cacheKeys, notifyCacheInvalidation env cacheKeys w
                  = (Fulfilled undefined, record_call Scan w))
  ∧ (∀ uid notification, notifyUser env uid notification w
                         = (Fulfilled undefined, record_call Scan w))
  ∧ (∀ notification, broadcastToAll env notification w
                     = (Fulfilled undefined, record_call Scan w))
  ∧ (∀ topics notification, broadcastToSubscribers env topics notification w
                            = (Fulfilled undefined, record_call Scan w)).
Proof.
  intros Hscan. repeat split; intros.
  - by rewrite getAllActiveConnections_run, Hscan.
  - by rewrite getUserConnections_run, Hscan.
  - by rewrite getSubscriberConnections_run, Hscan.
  - by rewrite notifyPartnerChange_run, broadcastToSubscribers_run_any, Hscan.
  - by rewrite notifyPartnerChangeByLocation_run_any,
      broadcastToSubscribers_run_any, Hscan.
  - by rewrite notifyCacheInvalidation_run, broadcastToAll_run, Hscan.
  - by rewrite notifyUser_run, Hscan.
  - by rewrite broadcastToAll_run, Hscan.
  - by rewrite broadcastToSubscribers_run_any, Hscan.
Qed.

Lemma scan_failure_on_three :
  getAllActiveConnections (with_scan env_ok (Some ServiceUnavailable)) three
  = (Rejected ServiceUnavailable, record_call Scan three)
  ∧ broadcastToAll (with_scan env_ok (Some ServiceUnavailable)) note three
    = (Fulfilled undefined, record_call Scan three).
Proof.
  destruct (scan_failure_is_swallowed_by_entry_points
              (with_scan env_ok (Some ServiceUnavailable)) three ServiceUnavailable)
    as ((Hget & _) & _ & _ & _ & _ & Hall & _).
  - reflexivity.
  - split; [exact Hget|apply Hall].
Defined.

(** X3: no entry point adds a row to the table or changes one: after
    any of them, every row of the table is a row the table had before,
    unchanged. *)
Theorem notifications_only_remove_rows (env : Env) (w : World) :
  (∀ partnerId action partnerData,
     table (notifyPartnerChange env partnerId action partnerData w).2 ⊆ table w)
  ∧ (∀ partnerId action partnerData city category,
       table (notifyPartnerChangeByLocation env partnerId action partnerData
                city category w).2 ⊆ table w)
  ∧ (∀ cacheKeys, table (notifyCacheInvalidation env cacheKeys w).2 ⊆ table w)
  ∧ (∀ uid notification, table (notifyUser env uid notification w).2 ⊆ table w)
  ∧ (∀ notification, table (broadcastToAll env notification w).2 ⊆ table w)
  ∧ (∀ topics notification,
       table (broadcastToSubscribers env topics notification w).2 ⊆ table w)
  ∧ (∀ connections notification,
       table (sendToConnections env connections notification w).2 ⊆ table w).
Proof.
  assert (Hsub : ∀ r, Broadcast env w r → table r.2 ⊆ table w).
  { intros r Hr. apply map_subseteq_spec. intros k c Hk.
    destruct (Broadcast_table env w r Hr k) as [Hn|Heq]; [congruence|].
    by rewrite <- Heq. }
  repeat split; intros.
  - rewrite notifyPartnerChange_run. apply Hsub, Broadcast_subscribers.
  - rewrite notifyPartnerChangeByLocation_run_any. apply Hsub, Broadcast_subscribers.
  - rewrite notifyCacheInvalidation_run. apply Hsub, Broadcast_all.
  - apply Hsub, Broadcast_user.
  - apply Hsub, Broadcast_all.
  - apply Hsub, Broadcast_subscribers.
  - rewrite sendToConnections_run. cbn [snd table].
    apply map_subseteq_spec. intros k c. rewrite lookup_foldl_reap.
    by destruct (decide _).
Qed.

(** ** Who receives a broadcast *)

Lemma new_calls_broadcast env targets notification w :
  new_calls w (sendToConnections env targets notification (record_call Scan w)).2
  = Scan :: (request_of notification <$> targets)
      ++ (Delete <$> gone_keys (pending_of env notification targets)).
Proof.
  rewrite sendToConnections_run. cbn [snd].
  change (calls (record_call Scan w)) with (calls w ++ [Scan]).
  by rewrite <- app_assoc, new_calls_app.
Qed.

Lemma posts_of_broadcast env targets notification w :
  List.filter is_post
    (new_calls w (sendToConnections env targets notification (record_call Scan w)).2)
  = request_of notification <$> targets.
Proof.
  rewrite new_calls_broadcast. cbn [List.filter is_post].
  apply posts_of_requests_and_deletes.
Qed.

Lemma count_posts_of_broadcast env targets notification w k :
  length (List.filter (is_post_to k)
            (new_calls w
               (sendToConnections env targets notification (record_call Scan w)).2))
  = length (List.filter (fun c => bool_decide (connectionId c = k)) targets).
Proof.
  rewrite new_calls_broadcast. cbn [List.filter is_post_to].
  by rewrite List.filter_app, posts_to_deletes, app_nil_r, posts_to_requests.
Qed.

Lemma live_lookup (t : gmap string Connection) c :
  wf_table t → c ∈ live t → t !! connectionId c = Some c.
Proof.
  intros Hwf Hc. apply elem_of_live in Hc as [[k Hk] _].
  by rewrite (Hwf _ _ Hk).
Qed.

(** Among scanned rows, the number of targets stored under [k] is one
    when the row under [k] is a target and zero otherwise. *)
Lemma count_targets_at_key (t : gmap string Connection) (targets : list Connection)
    (sel : Connection -> bool) k c :
  wf_table t → t !! k = Some c →
  targets = List.filter sel (live t) →
  length (List.filter (fun c' => bool_decide (connectionId c' = k)) targets)
  = if connected c && sel c then 1%nat else 0%nat.
Proof.
  intros Hwf Hk ->.
  assert (Hid : connectionId c = k) by (by apply Hwf).
  assert (Hnd : NoDup (connectionId <$> List.filter sel (live t))).
  { apply NoDup_fmap_List_filter. by apply live_NoDup_ids. }
  destruct (connected c && sel c) eqn:Hsel.
  - apply andb_true_iff in Hsel as [Hc Hs]. rewrite <- Hid.
    apply one_connection_per_key; [done|].
    apply elem_of_List_filter. split; [|done].
    apply elem_of_live. split; [by exists k|].
    by apply bool_decide_eq_true in Hc.
  - destruct (List.filter _ (List.filter sel (live t))) as [|c' rest] eqn:Hf; [done|].
    exfalso.
    assert (Hc' : c' ∈ List.filter (fun c' => bool_decide (connectionId c' = k))
                         (List.filter sel (live t))) by (rewrite Hf; left).
    apply elem_of_List_filter in Hc' as [Hc' Hk'].
    apply bool_decide_eq_true in Hk'.
    apply elem_of_List_filter in Hc' as [Hlive Hs].
    pose proof (live_lookup t c' Hwf Hlive) as Hrow. rewrite Hk', Hk in Hrow.
    injection Hrow as ->.
    apply elem_of_live in Hlive as [_ Hst].
    apply andb_false_iff in Hsel as [Hn|Hn].
    + unfold connected in Hn. by rewrite bool_decide_eq_true_2 in Hn.
    + by rewrite Hs in Hn.
Qed.

Lemma List_filter_true {A} (l : list A) : List.filter (fun _ => true) l = l.
Proof. induction l as [|a l IH]; [done|]. cbn. by rewrite IH. Qed.

(** X4: whenever the scan resolves, [broadcastToAll] and
    [notifyCacheInvalidation] push to the live connections as the scan
    delivers them, whatever their subscriptions; in a table keyed by
    connection id every row with status connected receives exactly one
    push request and every other row receives none. *)
Theorem broadcastToAll_reaches_every_live_connection
    (env : Env) (notification : Notification) (cacheKeys : list string) (w : World) :
  scanAnswer env = None →
  let w1 := (broadcastToAll env notification w).2 in
  let w2 := (notifyCacheInvalidation env cacheKeys w).2 in
  List.filter is_post (new_calls w w1) = request_of notification <$> live (table w)
  ∧ List.filter is_post (new_calls w w2)
    = request_of (cache_invalidated cacheKeys (clock env 0)) <$> live (table w)
  ∧ (wf_table (table w) →
     ∀ k c, table w !! k = Some c →
            length (List.filter (is_post_to k) (new_calls w w1))
            = (if connected c then 1%nat else 0%nat)
            ∧ length (List.filter (is_post_to k) (new_calls w w2))
              = (if connected c then 1%nat else 0%nat)).
Proof.
  intros Hscan w1 w2. subst w1 w2.
  rewrite notifyCacheInvalidation_run, !broadcastToAll_run, Hscan.
  rewrite !posts_of_broadcast. split; [done|]. split; [done|].
  intros Hwf k c Hk. rewrite !count_posts_of_broadcast.
  rewrite (count_targets_at_key (table w) (live (table w)) (fun _ => true) k c Hwf Hk)
    by (by rewrite List_filter_true).
  by rewrite andb_true_r.
Qed.

Lemma broadcastToAll_reaches_bare_not_closing :
  let w1 := (broadcastToAll env_ok note mixed).2 in
  length (List.filter (is_post_to "c6") (new_calls mixed w1)) = 1%nat
  ∧ length (List.filter (is_post_to "c7") (new_calls mixed w1)) = 0%nat.
Proof.
  destruct (broadcastToAll_reaches_every_live_connection env_ok note [] mixed)
    as (_ & _ & Hrow).
  - reflexivity.
  - split.
    + apply (Hrow (wf_table_of _) "c6" c_bare). vm_compute. reflexivity.
    + apply (Hrow (wf_table_of _) "c7" c_closing). vm_compute. reflexivity.
Defined.

Lemma user_live_filter uid (t : gmap string Connection) :
  user_live uid t
  = List.filter (fun c => bool_decide (userId c = uid)) (live t).
Proof.
  unfold user_live, live.
  induction (Dynamodb.items t) as [|a l IH]; [done|].
  cbn [List.filter].
  destruct (connected a); cbn [List.filter];
    destruct (bool_decide (userId a = uid)); cbn [andb]; by rewrite IH.
Qed.

(** X5: whenever the scan resolves, [notifyUser] pushes to the live
    connections of that user as the scan delivers them; in a table keyed
    by connection id a row receives exactly one push request when it is
    live and owned by the user, and none otherwise; when the user has no
    live connection the scan is the only call made. *)
Theorem notifyUser_reaches_only_that_user
    (env : Env) (uid : string) (notification : Notification) (w : World) :
  scanAnswer env = None →
  let w' := (notifyUser env uid notification w).2 in
  List.filter is_post (new_calls w w') = request_of notification <$> user_live uid (table w)
  ∧ (∀ c, c ∈ user_live uid (table w) ↔
          (∃ k, table w !! k = Some c) ∧ status c = "connected" ∧ userId c = uid)
  ∧ (wf_table (table w) →
     ∀ k c, table w !! k = Some c →
            length (List.filter (is_post_to k) (new_calls w w'))
            = if connected c && bool_decide (userId c = uid) then 1%nat else 0%nat)
  ∧ (user_live uid (table w) = [] → w' = record_call Scan w).
Proof.
  intros Hscan w'. subst w'. rewrite notifyUser_run, Hscan.
  rewrite posts_of_broadcast. split; [done|]. split; [|split].
  - intros c. rewrite user_live_live, elem_of_live.
    split; [intros [[? ?] ?]|intros (? & ? & ?)]; done.
  - intros Hwf k c Hk. rewrite count_posts_of_broadcast.
    apply (count_targets_at_key (table w) _
             (fun c => bool_decide (userId c = uid)) k c Hwf Hk).
    apply user_live_filter.
  - intros ->. reflexivity.
Qed.

Lemma notifyUser_reaches_u1_only :
  let w' := (notifyUser env_ok "u1" note three).2 in
  length (List.filter (is_post_to "c1") (new_calls three w')) = 1%nat
  ∧ length (List.filter (is_post_to "c3") (new_calls three w')) = 0%nat
  ∧ (notifyUser env_ok "nobody" note three).2 = record_call Scan three.
Proof.
  split; [|split].
  - destruct (notifyUser_reaches_only_that_user env_ok "u1" note three)
      as (_ & _ & Hrow & _); [reflexivity|].
    apply (Hrow (wf_table_of _) "c1" c1). vm_compute. reflexivity.
  - destruct (notifyUser_reaches_only_that_user env_ok "u1" note three)
      as (_ & _ & Hrow & _); [reflexivity|].
    apply (Hrow (wf_table_of _) "c3" c3). vm_compute. reflexivity.
  - destruct (notifyUser_reaches_only_that_user env_ok "nobody" note three)
      as (_ & _ & _ & Hnone); [reflexivity|].
    apply Hnone. vm_compute. reflexivity.
Defined.

(** X6: whenever the scan resolves, [notifyPartnerChange] pushes a
    [partner_updated] notification to exactly the live connections
    subscribed to partners or to partner_updates. *)
Theorem notifyPartnerChange_targets_partner_topics
    (env : Env) (partnerId action partnerData : string) (w : World) :
  scanAnswer env = None →
  let w' := (notifyPartnerChange env partnerId action partnerData w).2 in
  ∃ targets,
    List.filter is_post (new_calls w w')
    = request_of (partner_updated action partnerId partnerData (clock env 0))
        <$> targets
    ∧ ∀ c, c ∈ targets ↔
           (∃ k, table w !! k = Some c) ∧ status c = "connected"
           ∧ ("partners" ∈ topics_of c ∨ "partner_updates" ∈ topics_of c).
Proof.
  intros Hscan w'. subst w'.
  rewrite notifyPartnerChange_run, broadcastToSubscribers_run_any, Hscan.
  eexists. split; [apply posts_of_broadcast|].
  intros c. rewrite elem_of_List_filter, elem_of_live, subscribed_spec. split.
  - intros [[Hrow Hst] (topic & Hin & Hsub)]. split; [done|]. split; [done|].
    apply elem_of_cons in Hin as [->|Hin]; [by left|].
    apply elem_of_cons in Hin as [->|Hin]; [by right|].
    by apply elem_of_nil in Hin.
  - intros (Hrow & Hst & [Hsub|Hsub]); (split; [done|]).
    + exists "partners". split; [by left|done].
    + exists "partner_updates". split; [right; by left|done].
Qed.

Lemma notifyPartnerChange_targets_on_three :
  ∃ targets,
    List.filter is_post
      (new_calls three (notifyPartnerChange env_ok "p1" "created" "{}" three).2)
    = request_of (partner_updated "created" "p1" "{}" (clock env_ok 0)) <$> targets
    ∧ ∀ c, c ∈ targets ↔
           (∃ k, table three !! k = Some c) ∧ status c = "connected"
           ∧ ("partners" ∈ topics_of c ∨ "partner_updates" ∈ topics_of c).
Proof.
  apply (notifyPartnerChange_targets_partner_topics env_ok "p1" "created" "{}" three).
  reflexivity.
Defined.

(** ** What a broadcast leaves in the table *)

Lemma table_after_send env targets notification w k :
  wf_table (table w) →
  (∀ c, c ∈ targets → c ∈ live (table w)) →
  table (sendToConnections env targets notification (record_call Scan w)).2 !! k
  = match table w !! k with
    | Some c =>
      if bool_decide (c ∈ targets) && reaped_by env notification c
      then None else Some c
    | None => None
    end.
Proof.
  intros Hwf Hsub. rewrite sendToConnections_run. cbn [snd table].
  rewrite lookup_foldl_reap.
  change (table (record_call Scan w)) with (table w).
  destruct (table w !! k) as [c|] eqn:Hk.
  - pose proof (Hwf _ _ Hk) as Hid. unfold reaped_by. rewrite Hid.
    destruct (decide (k ∈ gone_keys _ ∧ _)) as [[Hin Hd]|Hn].
    + apply gone_keys_pending_of in Hin as (c' & Hc' & Hk' & Hg).
      pose proof (live_lookup _ _ Hwf (Hsub _ Hc')) as Hrow.
      rewrite Hk', Hk in Hrow. injection Hrow as ->.
      by rewrite bool_decide_eq_true_2, Hg, bool_decide_eq_true_2.
    + destruct (bool_decide (c ∈ targets)) eqn:Ht; [|done].
      apply bool_decide_eq_true in Ht.
      destruct (gone (settled_answer env notification c)) eqn:Hg; [|done].
      destruct (bool_decide (deleteAnswer env k = None)) eqn:Hd; [|done].
      apply bool_decide_eq_true in Hd. exfalso. apply Hn. split; [|done].
      apply gone_keys_pending_of. by exists c.
  - by destruct (decide _).
Qed.

(** X7: whenever the scan resolves on a table keyed by connection id,
    [broadcastToAll] removes exactly the rows of the live connections
    whose push is answered with status 410 and whose delete the table
    accepts; every other row, live or not, is left as it was.  The live
    connections afterwards are the live connections before that were not
    reaped. *)
Theorem broadcastToAll_reaps_exactly_the_gone_rows
    (env : Env) (notification : Notification) (w : World) :
  wf_table (table w) →
  scanAnswer env = None →
  let w' := (broadcastToAll env notification w).2 in
  (∀ k, table w' !! k
        = match table w !! k with
          | Some c =>
            if connected c && reaped_by env notification c then None else Some c
          | None => None
          end)
  ∧ (∀ c, c ∈ live (table w') ↔
          c ∈ live (table w) ∧ reaped_by env notification c = false).
Proof.
  intros Hwf Hscan w'. subst w'. rewrite broadcastToAll_run, Hscan.
  assert (Hrow : ∀ k,
    table (sendToConnections env (live (table w)) notification
             (record_call Scan w)).2 !! k
    = match table w !! k with
      | Some c =>
        if connected c && reaped_by env notification c then None else Some c
      | None => None
      end).
  { intros k. rewrite table_after_send by done.
    destruct (table w !! k) as [c|] eqn:Hk; [|done].
    assert (Hiff : bool_decide (c ∈ live (table w)) = connected c).
    { apply bool_decide_ext. rewrite elem_of_live. unfold connected.
      split; [by intros [_ ?]|]. intros Hst. split; [by exists k|done]. }
    by rewrite Hiff. }
  split; [exact Hrow|].
  intros c. rewrite !elem_of_live. split.
  - intros [[k Hk] Hst]. rewrite Hrow in Hk.
    destruct (table w !! k) as [c0|] eqn:Hk0; [|done].
    destruct (connected c0 && reaped_by env notification c0) eqn:Hr; [done|].
    injection Hk as ->. split; [split; [by exists k|done]|].
    apply andb_false_iff in Hr as [Hr|Hr]; [|done].
    unfold connected in Hr. by rewrite bool_decide_eq_true_2 in Hr.
  - intros [[[k Hk] Hst] Hr]. split; [|done]. exists k.
    by rewrite Hrow, Hk, Hr, andb_false_r.
Qed.

Lemma broadcastToAll_reaps_c2_only :
  let w' := (broadcastToAll (env_gone "c2") note three).2 in
  table w' !! "c2" = None ∧ table w' !! "c1" = Some c1.
Proof.
  destruct (broadcastToAll_reaps_exactly_the_gone_rows (env_gone "c2") note three)
    as [Hrow _].
  - apply wf_table_of.
  - reflexivity.
  - split; rewrite Hrow; vm_compute; reflexivity.
Defined.

(** ** More on admission *)

(** X8: the admission handler never rejects and answers 200, 401 or 500:
    401 exactly when the token is missing, empty or refused by the
    verifier, 200 exactly when the token is valid and the table accepts
    the write, 500 exactly when the token is valid and the table rejects
    the write; unless it answers 200 the table is left as it was. *)
Theorem handler_always_answers
    (env : Env) (event : ConnectHandler.ConnectEvent) (w : World) :
  ∃ response w',
    ConnectHandler.handler env event w = (Fulfilled response, w')
    ∧ (ConnectHandler.statusCode response = 200
       ∨ ConnectHandler.statusCode response = 401
       ∨ ConnectHandler.statusCode response = 500)
    ∧ (ConnectHandler.statusCode response = 401 ↔ verified env event = None)
    ∧ (ConnectHandler.statusCode response = 200 ↔
       ∃ d, verified env event = Some d
            ∧ putAnswer env (ConnectHandler.connectionData env event (id d)) = None)
    ∧ (ConnectHandler.statusCode response = 500 ↔
       ∃ d, verified env event = Some d
            ∧ putAnswer env (ConnectHandler.connectionData env event (id d)) ≠ None)
    ∧ (ConnectHandler.statusCode response ≠ 200 → table w' = table w).
Proof.
  destruct (verified env event) as [d|] eqn:Hv.
  - rewrite (handler_run_valid env event w d Hv). cbv zeta.
    destruct (putAnswer env _) as [e|] eqn:Hp.
    + do 2 eexists. split; [reflexivity|]. cbn [ConnectHandler.statusCode].
      split; [by right; right|]. split; [done|]. split; [|split; [|done]].
      * split; [done|]. intros (d' & [= <-] & Hp'). by rewrite Hp in Hp'.
      * split; [|done]. intros _. exists d. by rewrite Hp.
    + do 2 eexists. split; [reflexivity|]. cbn [ConnectHandler.statusCode].
      split; [by left|]. split; [done|]. split; [|split; [|done]].
      * split; [|done]. intros _. by exists d.
      * split; [done|]. intros (d' & [= <-] & Hp'). by rewrite Hp in Hp'.
  - destruct (handler_run_invalid env event w Hv) as [reason ->].
    do 2 eexists. split; [reflexivity|]. cbn [ConnectHandler.statusCode].
    split; [right; by left|]. split; [done|]. split; [|split; [|done]].
    + split; [done|]. by intros (d & Hd & _).
    + split; [done|]. by intros (d & Hd & _).
Qed.

(** X9: the body of a refusal tells a missing token from a refused one:
    Token manquant when the event has no token or an empty one, whatever
    the verifier would say of it, Token invalide when a non-empty token
    is refused; and the body of a 500 carries the message of the error
    the table answered with. *)
Theorem handler_bodies
    (env : Env) (event : ConnectHandler.ConnectEvent) (w : World) :
  (presented_token event = None ∨ presented_token event = Some "" →
   ConnectHandler.handler env event w
   = (Fulfilled {| ConnectHandler.statusCode := 401;
                   ConnectHandler.body := ConnectHandler.Message "Token manquant" |},
      w))
  ∧ (∀ tok, presented_token event = Some tok → tok ≠ "" →
            jwtVerify env (Js.remove_first "Bearer " tok) = None →
            ConnectHandler.handler env event w
            = (Fulfilled {| ConnectHandler.statusCode := 401;
                            ConnectHandler.body :=
                              ConnectHandler.Message "Token invalide" |},
               w))
  ∧ (∀ d e, verified env event = Some d →
            putAnswer env (ConnectHandler.connectionData env event (id d)) = Some e →
            (ConnectHandler.handler env event w).1
            = Fulfilled {| ConnectHandler.statusCode := 500;
                           ConnectHandler.body :=
                             ConnectHandler.InternalError "Erreur interne"
                               (message e) |}).
Proof.
  split; [|split].
  - unfold presented_token, ConnectHandler.handler.
    intros [->| ->]; reflexivity.
  - unfold presented_token, ConnectHandler.handler. intros tok -> Hne Hj.
    rewrite decide_False by done. unfold ConnectHandler.verifyToken.
    by rewrite Hj.
  - intros d e Hv Hp. rewrite (handler_run_valid env event w d Hv). cbv zeta.
    by rewrite Hp.
Qed.

Lemma handler_bodies_on_examples :
  ConnectHandler.handler env_ok (connect_event "c9" (Some "")) empty_world
  = (Fulfilled {| ConnectHandler.statusCode := 401;
                  ConnectHandler.body := ConnectHandler.Message "Token manquant" |},
     empty_world)
  ∧ ConnectHandler.handler env_ok (connect_event "c9" (Some "expired")) empty_world
    = (Fulfilled {| ConnectHandler.statusCode := 401;
                    ConnectHandler.body := ConnectHandler.Message "Token invalide" |},
       empty_world)
  ∧ (ConnectHandler.handler (with_put env_ok (fun _ => Some ServiceUnavailable))
       (connect_event "c9" (Some "good")) empty_world).1
    = Fulfilled {| ConnectHandler.statusCode := 500;
                   ConnectHandler.body :=
                     ConnectHandler.InternalError "Erreur interne"
                       "Service Unavailable" |}.
Proof.
  split; [|split].
  - apply (handler_bodies env_ok (connect_event "c9" (Some "")) empty_world).
    right. reflexivity.
  - apply (proj1 (proj2 (handler_bodies env_ok
                           (connect_event "c9" (Some "expired")) empty_world))
             "expired").
    + reflexivity.
    + apply (bool_decide_unpack _). vm_compute. reflexivity.
    + vm_compute. reflexivity.
  - apply (proj2 (proj2 (handler_bodies
                           (with_put env_ok (fun _ => Some ServiceUnavailable))
                           (connect_event "c9" (Some "good")) empty_world))
             {| id := "u1" |} ServiceUnavailable).
    + vm_compute. reflexivity.
    + reflexivity.
Defined.

(** *** Cleaning the token *)

Lemma prefix_app (pat s : string) : String.prefix pat (pat +:+ s) = true.
Proof.
  induction pat as [|a pat IH]; [by destruct s|].
  simpl. destruct (ascii_dec a a); [exact IH|done].
Qed.

Lemma drop_app (pat s : string) : Js.drop (String.length pat) (pat +:+ s) = s.
Proof. induction pat as [|a pat IH]; [done|exact IH]. Qed.

Lemma prefix_split (pat s : string) :
  String.prefix pat s = true → s = pat +:+ Js.drop (String.length pat) s.
Proof.
  revert s. induction pat as [|a pat IH]; intros s Hp; [done|].
  destruct s as [|b s]; [done|]. cbn in Hp.
  destruct (ascii_dec a b) as [->|]; [|done].
  change (String b s = String b (pat +:+ Js.drop (String.length pat) s)).
  f_equal. by apply IH.
Qed.

Lemma remove_first_prefix (pat s : string) :
  Js.remove_first pat (pat +:+ s) = s.
Proof.
  pose proof (prefix_app pat s) as Hp.
  destruct (pat +:+ s) as [|c s'] eqn:Hs; cbn [Js.remove_first];
    rewrite Hp, <- Hs; apply drop_app.
Qed.

(** X10: [remove_first], the model of [token.replace('Bearer ', '')]:
    a leading occurrence of the pattern is cut off; a string the pattern
    does not occur in is returned as it is; and an occurrence is removed
    wherever it first starts, not only at the head of the string. *)
Theorem remove_first_removes_the_first_occurrence (pat : string) :
  (∀ s, Js.remove_first pat (pat +:+ s) = s)
  ∧ (∀ s, (∀ a b, s ≠ a +:+ pat +:+ b) → Js.remove_first pat s = s)
  ∧ (∀ a b,
       (∀ a1 a2, a = a1 +:+ a2 → a2 ≠ "" →
                 String.prefix pat (a2 +:+ pat +:+ b) = false) →
       Js.remove_first pat (a +:+ pat +:+ b) = a +:+ b).
Proof.
  split; [apply remove_first_prefix|split].
  - intros s. induction s as [|c s IH]; intros Hno.
    + cbn [Js.remove_first]. destruct (String.prefix pat "") eqn:Hp; [|done].
      exfalso. apply (Hno "" (Js.drop (String.length pat) "")).
      by apply prefix_split.
    + cbn [Js.remove_first]. destruct (String.prefix pat (String c s)) eqn:Hp.
      * exfalso. apply (Hno "" (Js.drop (String.length pat) (String c s))).
        by apply prefix_split.
      * f_equal. apply IH. intros a b ->. by apply (Hno (String c a) b).
  - intros a. induction a as [|c a IH]; intros b Hfirst.
    + change (Js.remove_first pat (pat +:+ b) = b). apply remove_first_prefix.
    + change (String c a +:+ pat +:+ b) with (String c (a +:+ pat +:+ b)).
      cbn [Js.remove_first].
      pose proof (Hfirst "" (String c a) eq_refl ltac:(done)) as Hp.
      change (String c a +:+ pat +:+ b) with (String c (a +:+ pat +:+ b)) in Hp.
      rewrite Hp.
      change (String c a +:+ b) with (String c (a +:+ b)). f_equal.
      apply IH. intros a1 a2 -> Ha2.
      by apply (Hfirst (String c a1) a2).
Qed.

Lemma remove_first_on_examples :
  Js.remove_first "Bearer " "good" = "good"
  ∧ Js.remove_first "Bearer " ("x" +:+ "Bearer " +:+ "good") = "x" +:+ "good".
Proof.
  destruct (remove_first_removes_the_first_occurrence "Bearer ")
    as (_ & Hnone & Hfirst).
  split.
  - apply Hnone. intros a b Heq.
    destruct a as [|a0 [|a1 [|a2 [|a3 [|a4 a]]]]]; discriminate Heq.
  - apply Hfirst. intros a1 a2 Heq Hne.
    destruct a1 as [|c0 [|c1 a1]]; compute in Heq; [| |discriminate Heq].
    + subst a2. reflexivity.
    + injection Heq as _ <-. done.
Defined.

(** X11: a token is admitted or refused alike with and without the
    prefix Bearer: for a non-empty token that has no occurrence of the
    prefix for the cleaning to remove, the handler does the same on the
    token and on the token with the prefix in front. *)
Theorem handler_accepts_bare_and_bearer_tokens
    (env : Env) (cid : string) (rc : ConnectHandler.RequestContext)
    (tok : string) (w : World) :
  tok ≠ "" →
  Js.remove_first "Bearer " tok = tok →
  ConnectHandler.handler env
    (ConnectHandler.mkEvent cid rc
       (Some (ConnectHandler.mkQuery (Some ("Bearer " +:+ tok))))) w
  = ConnectHandler.handler env
      (ConnectHandler.mkEvent cid rc (Some (ConnectHandler.mkQuery (Some tok)))) w.
Proof.
  intros Hne Hclean. unfold ConnectHandler.handler. cbn [mbind option_bind
    ConnectHandler.queryStringParameters ConnectHandler.token].
  rewrite (decide_False (P := tok = "")) by done.
  rewrite (decide_False (P := "Bearer " +:+ tok = "")) by done.
  unfold ConnectHandler.verifyToken.
  rewrite remove_first_prefix, Hclean.
  reflexivity.
Qed.

Lemma handler_accepts_good_with_and_without_bearer :
  ConnectHandler.handler env_ok (connect_event "c9" (Some ("Bearer " +:+ "good")))
    empty_world
  = ConnectHandler.handler env_ok (connect_event "c9" (Some "good")) empty_world.
Proof.
  apply (handler_accepts_bare_and_bearer_tokens env_ok "c9"
           {| ConnectHandler.rc_domainName := "ws.perkup.example";
              ConnectHandler.rc_stage := "prod" |} "good" empty_world).
  - apply (bool_decide_unpack _). vm_compute. reflexivity.
  - vm_compute. reflexivity.
Defined.

(** X12: admitting the same connection id twice keeps one row under that
    id, the one of the later admission; all other rows are as before the
    first. *)
Theorem handler_last_write_wins
    (env1 env2 : Env) (event1 event2 : ConnectHandler.ConnectEvent) (w : World)
    (d1 d2 : Decoded) :
  ConnectHandler.ev_connectionId event1 = ConnectHandler.ev_connectionId event2 →
  verified env1 event1 = Some d1 →
  putAnswer env1 (ConnectHandler.connectionData env1 event1 (id d1)) = None →
  verified env2 event2 = Some d2 →
  putAnswer env2 (ConnectHandler.connectionData env2 event2 (id d2)) = None →
  let item2 := ConnectHandler.connectionData env2 event2 (id d2) in
  let w2 := (ConnectHandler.handler env2 event2
               (ConnectHandler.handler env1 event1 w).2).2 in
  table w2 = <[ConnectHandler.ev_connectionId event2 := item2]> (table w)
  ∧ table w2 !! ConnectHandler.ev_connectionId event2 = Some item2
  ∧ (∀ k, k ≠ ConnectHandler.ev_connectionId event2 → table w2 !! k = table w !! k).
Proof.
  intros Hid Hv1 Hp1 Hv2 Hp2 item2 w2. subst w2.
  rewrite (handler_run_valid env1 event1 w d1 Hv1). cbv zeta. rewrite Hp1.
  cbn [snd]. rewrite (handler_run_valid env2 event2 _ d2 Hv2). cbv zeta.
  rewrite Hp2. cbn [snd table]. fold item2. rewrite Hid, insert_insert_eq.
  split; [done|]. split; [apply lookup_insert_eq|].
  intros k Hne. by rewrite lookup_insert_ne.
Qed.

Lemma handler_last_write_wins_on_c9 :
  let later := with_clock env_ok (fun k => 1700000999000 + Z.of_nat k) in
  let event := connect_event "c9" (Some "good") in
  let w2 := (ConnectHandler.handler later event
               (ConnectHandler.handler env_ok event empty_world).2).2 in
  table w2 = <["c9" := ConnectHandler.connectionData later event "u1"]> ∅
  ∧ table w2 !! "c9" = Some (ConnectHandler.connectionData later event "u1")
  ∧ (∀ k, k ≠ "c9" → table w2 !! k = (∅ : gmap string Connection) !! k).
Proof.
  apply (handler_last_write_wins env_ok
           (with_clock env_ok (fun k => 1700000999000 + Z.of_nat k))
           (connect_event "c9" (Some "good")) (connect_event "c9" (Some "good"))
           empty_world {| id := "u1" |} {| id := "u1" |}).
  - reflexivity.
  - vm_compute. reflexivity.
  - reflexivity.
  - vm_compute. reflexivity.
  - reflexivity.
Defined.

(** X13: reaping a connection that was just admitted undoes the
    admission: the table is the table before the admission without that
    id, which is the table before the admission when the id was new. *)
Theorem admission_then_reap_restores_the_table
    (env env' : Env) (event : ConnectHandler.ConnectEvent) (w : World) (d : Decoded) :
  verified env event = Some d →
  putAnswer env (ConnectHandler.connectionData env event (id d)) = None →
  deleteAnswer env' (ConnectHandler.ev_connectionId event) = None →
  let w1 := (ConnectHandler.handler env event w).2 in
  let w2 := (cleanupConnection env' (ConnectHandler.ev_connectionId event) w1).2 in
  table w2 = delete (ConnectHandler.ev_connectionId event) (table w)
  ∧ (table w !! ConnectHandler.ev_connectionId event = None → table w2 = table w).
Proof.
  intros Hv Hp Hd w1 w2. subst w1 w2.
  rewrite (handler_run_valid env event w d Hv). cbv zeta. rewrite Hp.
  rewrite cleanupConnection_run. cbn [snd table]. unfold reap. rewrite Hd.
  rewrite delete_insert_eq. split; [done|]. intros Hfresh. by apply delete_id.
Qed.

Lemma admission_then_reap_on_three :
  let event := connect_event "c9" (Some "good") in
  let w1 := (ConnectHandler.handler env_ok event three).2 in
  table (cleanupConnection env_ok "c9" w1).2 = table three.
Proof.
  destruct (admission_then_reap_restores_the_table env_ok env_ok
              (connect_event "c9" (Some "good")) three {| id := "u1" |})
    as [_ Hfresh].
  - vm_compute. reflexivity.
  - reflexivity.
  - reflexivity.
  - apply Hfresh. vm_compute. reflexivity.
Defined.

(** ** Invariants of the table *)

Lemma handler_table env event w :
  table (ConnectHandler.handler env event w).2 = table w
  ∨ ∃ d, table (ConnectHandler.handler env event w).2
         = <[connectionId (ConnectHandler.connectionData env event (id d)) :=
               ConnectHandler.connectionData env event (id d)]> (table w).
Proof.
  destruct (verified env event) as [d|] eqn:Hv.
  - rewrite (handler_run_valid env event w d Hv). cbv zeta.
    destruct (putAnswer env _); [by left|]. right. by exists d.
  - destruct (handler_run_invalid env event w Hv) as [reason ->]. by left.
Qed.

Lemma wf_table_subseteq (t t' : gmap string Connection) :
  t' ⊆ t → wf_table t → wf_table t'.
Proof.
  intros Hsub Hwf k c Hk. apply (Hwf k c).
  by eapply lookup_weaken.
Qed.

Lemma Broadcast_subseteq env w r : Broadcast env w r → table r.2 ⊆ table w.
Proof.
  intros Hr. apply map_subseteq_spec. intros k c Hk.
  destruct (Broadcast_table env w r Hr k) as [Hn|Heq]; [congruence|].
  by rewrite <- Heq.
Qed.

(** X14: every operation keeps the table keyed by connection id: if each
    row is stored under its own [connectionId] before an admission, a
    reaping, a send or any broadcast, it is so afterwards. *)
Theorem table_stays_keyed_by_connection_id (env : Env) (w : World) :
  wf_table (table w) →
  (∀ event, wf_table (table (ConnectHandler.handler env event w).2))
  ∧ (∀ key, wf_table (table (cleanupConnection env key w).2))
  ∧ (∀ connections notification,
       wf_table (table (sendToConnections env connections notification w).2))
  ∧ (∀ notification, wf_table (table (broadcastToAll env notification w).2))
  ∧ (∀ topics notification,
       wf_table (table (broadcastToSubscribers env topics notification w).2))
  ∧ (∀ uid notification, wf_table (table (notifyUser env uid notification w).2)).
Proof.
  intros Hwf. repeat split.
  - intros event. destruct (handler_table env event w) as [->|[d ->]]; [done|].
    by apply wf_table_insert.
  - intros key. rewrite cleanupConnection_run. by apply wf_table_reap.
  - intros connections notification. by apply sendToConnections_wf.
  - intros n. eapply wf_table_subseteq; [|exact Hwf].
    apply (Broadcast_subseteq env), Broadcast_all.
  - intros topics n. eapply wf_table_subseteq; [|exact Hwf].
    apply (Broadcast_subseteq env), Broadcast_subscribers.
  - intros uid n. eapply wf_table_subseteq; [|exact Hwf].
    apply (Broadcast_subseteq env), Broadcast_user.
Qed.

Lemma table_stays_keyed_after_admission :
  wf_table (table (ConnectHandler.handler env_ok
                     (connect_event "c9" (Some "good")) empty_world).2).
Proof.
  apply (table_stays_keyed_by_connection_id env_ok empty_world).
  apply wf_table_empty.
Defined.

Lemma unsubscribed_selects_nothing (t : gmap string Connection) topics :
  unsubscribed t → List.filter (subscribed topics) (live t) = [].
Proof.
  intros Hun.
  assert (H : ∀ l : list Connection, (∀ c, c ∈ l → subscriptions c = None) →
                List.filter (subscribed topics) l = []).
  { induction l as [|c l IH]; intros Hl; [done|]. cbn [List.filter].
    rewrite subscribed_absent by (apply Hl; left).
    apply IH. intros c' Hc'. apply Hl. by right. }
  apply H. intros c Hc. apply elem_of_live in Hc as [[k Hk] _]. by eapply Hun.
Qed.

(** X15: the rows the admission handler writes have no subscriptions,
    and nothing in the service adds any: a table in which no row has the
    attribute stays so under admission, and on such a table the topic
    router selects nobody and every topic broadcast makes the scan and
    not a single push. *)
Theorem admitted_rows_receive_no_topic_broadcast (env : Env) (w : World) :
  unsubscribed (table w) →
  (∀ env' event, unsubscribed (table (ConnectHandler.handler env' event w).2))
  ∧ (∀ topics, scanAnswer env = None →
               getSubscriberConnections env topics w
               = (Fulfilled [], record_call Scan w))
  ∧ (∀ topics notification,
       (broadcastToSubscribers env topics notification w).2 = record_call Scan w)
  ∧ (∀ partnerId action partnerData,
       (notifyPartnerChange env partnerId action partnerData w).2
       = record_call Scan w)
  ∧ (∀ partnerId action partnerData city category,
       (notifyPartnerChangeByLocation env partnerId action partnerData
          city category w).2 = record_call Scan w).
Proof.
  intros Hun.
  assert (Hb : ∀ topics notification,
    (broadcastToSubscribers env topics notification w).2 = record_call Scan w).
  { intros topics n. rewrite broadcastToSubscribers_run_any.
    destruct (scanAnswer env); [done|].
    by rewrite unsubscribed_selects_nothing. }
  split; [|split; [|split; [|split]]].
  - intros env' event. destruct (handler_table env' event w) as [->|[d ->]]; [done|].
    intros k c Hk. destruct (decide (k = connectionId
      (ConnectHandler.connectionData env' event (id d)))) as [->|Hne].
    + rewrite lookup_insert_eq in Hk. by injection Hk as <-.
    + rewrite lookup_insert_ne in Hk by done. by eapply Hun.
  - intros topics Hscan. rewrite getSubscriberConnections_run, Hscan.
    by rewrite unsubscribed_selects_nothing.
  - exact Hb.
  - intros. by rewrite notifyPartnerChange_run.
  - intros. by rewrite notifyPartnerChangeByLocation_run_any.
Qed.

Lemma admitted_c9_receives_no_partner_update :
  let w1 := (ConnectHandler.handler env_ok (connect_event "c9" (Some "good"))
               empty_world).2 in
  (notifyPartnerChange env_ok "p1" "created" "{}" w1).2 = record_call Scan w1.
Proof.
  destruct (admitted_rows_receive_no_topic_broadcast env_ok empty_world)
    as (Hadm & _).
  - intros k c Hk. unfold empty_world in Hk. cbn [table] in Hk.
    by rewrite lookup_empty in Hk.
  - destruct (admitted_rows_receive_no_topic_broadcast env_ok
                (ConnectHandler.handler env_ok (connect_event "c9" (Some "good"))
                   empty_world).2) as (_ & _ & _ & Hnotify & _).
    + apply Hadm.
    + apply Hnotify.
Defined.



(** ** More on the router *)

Lemma subscribed_app topics1 topics2 c :
  subscribed (topics1 ++ topics2) c = subscribed topics1 c || subscribed topics2 c.
Proof. unfold subscribed. apply existsb_app. Qed.

(** X17: the router has union semantics: whenever the scan resolves,
    the connections selected for two lists of topics taken together are
    those selected for the one or for the other; a connection subscribed
    to several of the topics is selected once (in a table keyed by
    connection id the selected ids are pairwise distinct), and every
    selected connection is a live one. *)
Theorem getSubscriberConnections_is_a_union
    (env : Env) (topics1 topics2 : list string) (w : World) :
  scanAnswer env = None →
  ∃ s1 s2 s12,
    (getSubscriberConnections env topics1 w).1 = Fulfilled s1
    ∧ (getSubscriberConnections env topics2 w).1 = Fulfilled s2
    ∧ (getSubscriberConnections env (topics1 ++ topics2) w).1 = Fulfilled s12
    ∧ (∀ c, c ∈ s12 ↔ c ∈ s1 ∨ c ∈ s2)
    ∧ (∀ c, c ∈ s12 → c ∈ live (table w))
    ∧ (wf_table (table w) → NoDup (connectionId <$> s12)).
Proof.
  intros Hscan. rewrite !getSubscriberConnections_run, Hscan.
  do 3 eexists. split; [reflexivity|]. split; [reflexivity|].
  split; [reflexivity|]. split; [|split].
  - intros c. rewrite !elem_of_List_filter, subscribed_app, orb_true_iff.
    split; [intros [? [?|?]]|intros [[? ?]|[? ?]]]; auto.
  - intros c Hc. by apply elem_of_List_filter in Hc as [Hc _].
  - intros Hwf. apply NoDup_fmap_List_filter. by apply live_NoDup_ids.
Qed.

Lemma getSubscriberConnections_union_on_three :
  ∃ s1 s2 s12,
    (getSubscriberConnections env_ok ["partners"] three).1 = Fulfilled s1
    ∧ (getSubscriberConnections env_ok ["c1"] three).1 = Fulfilled s2
    ∧ (getSubscriberConnections env_ok (["partners"] ++ ["c1"]) three).1
      = Fulfilled s12
    ∧ (∀ c, c ∈ s12 ↔ c ∈ s1 ∨ c ∈ s2)
    ∧ (∀ c, c ∈ s12 → c ∈ live (table three))
    ∧ (wf_table (table three) → NoDup (connectionId <$> s12)).
Proof.
  apply (getSubscriberConnections_is_a_union env_ok ["partners"] ["c1"] three).
  reflexivity.
Defined.

(** X18: the order in which the push attempts of one send settle does
    not matter: running the continuations of the same pending tasks in
    another order leaves the same table, requests the same deletes up to
    their order, and settles the same outcomes. *)
Theorem settle_order_does_not_matter
    (env : Env) (pending pending' : list (Connection * Settled unit)) (w : World) :
  pending ≡ₚ pending' →
  let r := continue_all env pending w in
  let r' := continue_all env pending' w in
  table r.2 = table r'.2
  ∧ new_calls w r.2 ≡ₚ new_calls w r'.2
  ∧ ∃ results results',
      r.1 = Fulfilled results ∧ r'.1 = Fulfilled results'
      ∧ results ≡ₚ results'.
Proof.
  intros Hp r r'. subst r r'. split; [by apply continue_all_any_order|].
  rewrite !continue_all_run. cbn [fst snd]. rewrite !new_calls_app.
  split.
  - unfold gone_keys. apply fmap_Permutation, fmap_Permutation.
    by apply List_filter_Permutation.
  - do 2 eexists. split; [reflexivity|]. split; [reflexivity|].
    by apply fmap_Permutation.
Qed.

Lemma settle_order_does_not_matter_on_three :
  let p1 := (c1, Rejected GoneException) in
  let p2 := (c2, Fulfilled tt) in
  let p3 := (c3, Rejected GoneException) in
  table (continue_all env_ok [p1; p2; p3] three).2
  = table (continue_all env_ok [p3; p2; p1] three).2.
Proof.
  apply (settle_order_does_not_matter env_ok).
  eapply perm_trans; [apply perm_swap|].
  eapply perm_trans; [apply perm_skip, perm_swap|].
  apply perm_swap.
Defined.

(** ** Topics of a location *)

Lemma lower_ascii_nat (c : ascii) :
  nat_of_ascii (Js.lower_ascii c)
  = if ((65 <=? nat_of_ascii c)%nat && (nat_of_ascii c <=? 90)%nat)%bool
    then (nat_of_ascii c + 32)%nat else nat_of_ascii c.
Proof.
  unfold Js.lower_ascii. cbv zeta.
  destruct ((65 <=? nat_of_ascii c)%nat && (nat_of_ascii c <=? 90)%nat)%bool
    eqn:Hup; [|done].
  apply andb_true_iff in Hup as [_ Hle%Nat.leb_le].
  apply nat_ascii_embedding. lia.
Qed.

Lemma lower_ascii_eq_iff (a b : ascii) :
  Js.lower_ascii a = Js.lower_ascii b ↔ same_up_to_case a b.
Proof.
  unfold same_up_to_case. cbv zeta. split.
  - intros Heq. apply (f_equal nat_of_ascii) in Heq.
    rewrite !lower_ascii_nat in Heq.
    destruct (Nat.leb_spec 65 (nat_of_ascii a)), (Nat.leb_spec (nat_of_ascii a) 90),
      (Nat.leb_spec 65 (nat_of_ascii b)), (Nat.leb_spec (nat_of_ascii b) 90);
      cbn [andb] in Heq; lia.
  - intros Hsame.
    rewrite <- (ascii_nat_embedding (Js.lower_ascii a)),
      <- (ascii_nat_embedding (Js.lower_ascii b)).
    f_equal. rewrite !lower_ascii_nat.
    destruct (Nat.leb_spec 65 (nat_of_ascii a)), (Nat.leb_spec (nat_of_ascii a) 90),
      (Nat.leb_spec 65 (nat_of_ascii b)), (Nat.leb_spec (nat_of_ascii b) 90);
      cbn [andb]; lia.
Qed.

Lemma toLowerCase_eq_iff (s s' : string) :
  Js.toLowerCase s = Js.toLowerCase s'
  ↔ Forall2 same_up_to_case (list_ascii_of_string s) (list_ascii_of_string s').
Proof.
  revert s'. induction s as [|a s IH]; intros [|b s']; cbn [Js.toLowerCase
    list_ascii_of_string].
  - split; [constructor|done].
  - split; [done|by inversion 1].
  - split; [done|by inversion 1].
  - split.
    + intros [= Hab Hs]. constructor; [by apply lower_ascii_eq_iff|by apply IH].
    + intros [Hab Hs]%Forall2_cons. f_equal; [by apply lower_ascii_eq_iff|by apply IH].
Qed.

(** X19: the topics of a location match the city up to the case of its
    letters and the category as it is given: for two cities written in
    ASCII characters, the topics are the same exactly when the two
    spellings differ at most in the case of letters; and two categories
    give the same topics only when they are the same string. *)
Theorem locationTopics_match_the_city_up_to_case
    (city city' : string) (category : option string) :
  Js.is_ascii city = true →
  Js.is_ascii city' = true →
  (locationTopics (Some city) category = locationTopics (Some city') category
   ↔ Forall2 same_up_to_case (list_ascii_of_string city)
       (list_ascii_of_string city'))
  ∧ (∀ category1 category2,
       locationTopics (Some city) (Some category1)
       = locationTopics (Some city) (Some category2) →
       category1 = category2).
Proof.
  intros _ _. split.
  - rewrite <- toLowerCase_eq_iff. unfold locationTopics.
    cbn [fmap option_fmap option_map Js.interpolate]. split.
    + intros Heq. injection Heq as Heq _. exact Heq.
    + by intros ->.
  - intros category1 category2 Heq. unfold locationTopics in Heq.
    injection Heq as Heq _. cbn [Js.interpolate] in Heq. exact Heq.
Qed.

Lemma locationTopics_of_PARIS_and_Paris :
  locationTopics (Some "PARIS") (Some "food") = paris_food.
Proof.
  etrans.
  - apply (locationTopics_match_the_city_up_to_case "PARIS" "Paris" (Some "food")).
    + reflexivity.
    + reflexivity.
    + repeat constructor; unfold same_up_to_case; cbn; lia.
  - reflexivity.
Defined.

(** X20: whenever the scan resolves on a table keyed by connection id,
    a change of a partner by location pushes exactly once to every live
    connection subscribed to partners, whatever the city and the
    category, given or missing. *)
Theorem notifyPartnerChangeByLocation_always_reaches_partners
    (env : Env) (partnerId action partnerData : string)
    (city category : option string) (w : World) (k : string) (c : Connection) :
  scanAnswer env = None →
  wf_table (table w) →
  table w !! k = Some c →
  status c = "connected" →
  "partners" ∈ topics_of c →
  let w' := (notifyPartnerChangeByLocation env partnerId action partnerData
               city category w).2 in
  length (List.filter (is_post_to k) (new_calls w w')) = 1%nat.
Proof.
  intros Hscan Hwf Hk Hst Hsub w'. subst w'.
  rewrite notifyPartnerChangeByLocation_run_any, broadcastToSubscribers_run_any, Hscan.
  rewrite count_posts_of_broadcast.
  rewrite (count_targets_at_key (table w) _
             (subscribed (locationTopics city category)) k c Hwf Hk) by done.
  unfold connected. rewrite bool_decide_eq_true_2 by done.
  assert (Hs : subscribed (locationTopics city category) c = true).
  { apply subscribed_spec. exists "partners". split; [by left|done]. }
  by rewrite Hs.
Qed.

Lemma notifyPartnerChangeByLocation_reaches_c1_from_anywhere :
  length (List.filter (is_post_to "c1")
            (new_calls three
               (notifyPartnerChangeByLocation env_ok "p1" "updated" "{}"
                  None (Some "Sport") three).2)) = 1%nat.
Proof.
  apply (notifyPartnerChangeByLocation_always_reaches_partners env_ok
           "p1" "updated" "{}" None (Some "Sport") three "c1" c1).
  - reflexivity.
  - apply wf_table_of.
  - vm_compute. reflexivity.
  - reflexivity.
  - apply (bool_decide_unpack _). vm_compute. reflexivity.
Defined.

(** ** More on the statistics *)

Lemma sum_counts_comm (j1 j2 : string) (z1 z2 : Bucket) (y : nat) :
  (count_of z1 + (count_of z2 + y) = count_of z2 + (count_of z1 + y))%nat.
Proof. lia. Qed.

Lemma sum_counts_insert key b (obj : gmap string Bucket) :
  sum_counts (<[key := b]> obj)
  = (count_of b + sum_counts (delete key obj))%nat.
Proof.
  unfold sum_counts. rewrite <- (insert_delete_eq obj key b).
  rewrite map_fold_insert_L;
    [|intros; apply sum_counts_comm; done|apply lookup_delete_eq].
  reflexivity.
Qed.

Lemma sum_counts_lookup key (obj : gmap string Bucket) :
  sum_counts obj
  = (match obj !! key with Some b => count_of b | None => 0 end
     + sum_counts (delete key obj))%nat.
Proof.
  destruct (obj !! key) as [b|] eqn:Hk.
  - unfold sum_counts.
    rewrite (map_fold_delete_L _ _ key b obj);
      [done|intros; apply sum_counts_comm; done|done].
  - by rewrite delete_id.
Qed.

Lemma increment_insert key (obj : gmap string Bucket) :
  increment key obj
  = match bump key (obj !! key) with
    | Some b => <[key := b]> obj
    | None => delete key obj
    end.
Proof.
  apply map_eq. intros k. rewrite lookup_increment.
  destruct (decide (k = key)) as [->|Hne].
  - destruct (bump key (obj !! key)); [by rewrite lookup_insert_eq|].
    by rewrite lookup_delete_eq.
  - destruct (bump key (obj !! key)); [by rewrite lookup_insert_ne|].
    by rewrite lookup_delete_ne.
Qed.

Lemma inherited_proto : Js.inherited "__proto__" = true.
Proof. reflexivity. Qed.

Lemma sorted_buckets_increment key (obj : gmap string Bucket) :
  sorted_buckets obj → sorted_buckets (increment key obj).
Proof.
  intros Hs k b. rewrite lookup_increment.
  destruct (decide (k = key)) as [->|Hne]; [|apply Hs].
  destruct (obj !! key) as [[n|m j]|] eqn:Hk; cbn [bump].
  - intros [= <-]. apply (Hs key (Count n) Hk).
  - intros [= <-]. apply (Hs key (Text m j) Hk).
  - destruct (decide (key = "__proto__")); [done|].
    destruct (Js.inherited key) eqn:Hi; by intros [= <-].
Qed.

Lemma sum_counts_increment key (obj : gmap string Bucket) :
  sorted_buckets obj →
  sum_counts (increment key obj)
  = (sum_counts obj + if Js.inherited key then 0 else 1)%nat.
Proof.
  intros Hs. rewrite increment_insert, (sum_counts_lookup key obj).
  destruct (obj !! key) as [[n|m j]|] eqn:Hk; cbn [bump].
  - rewrite sum_counts_insert, (Hs key (Count n) Hk). cbn [count_of]. lia.
  - rewrite sum_counts_insert, (Hs key (Text m j) Hk). cbn [count_of]. lia.
  - destruct (decide (key = "__proto__")) as [->|Hnp].
    + rewrite inherited_proto. lia.
    + destruct (Js.inherited key); rewrite sum_counts_insert; cbn [count_of]; lia.
Qed.

Lemma sum_counts_foldl_increment (keys : list string) (obj : gmap string Bucket) :
  sorted_buckets obj →
  sum_counts (foldl (fun o key => increment key o) obj keys)
  = (sum_counts obj
     + length (List.filter (fun key => negb (Js.inherited key)) keys))%nat.
Proof.
  revert obj. induction keys as [|key keys IH]; intros obj Hs;
    cbn [foldl List.filter].
  - cbn [length]. lia.
  - rewrite IH by (by apply sorted_buckets_increment).
    rewrite sum_counts_increment by done.
    destruct (Js.inherited key); cbn [negb length]; lia.
Qed.

Lemma List_filter_all {A} (f : A -> bool) (l : list A) :
  (∀ x, x ∈ l → f x = true) → List.filter f l = l.
Proof.
  induction l as [|a l IH]; intros Hall; [done|]. cbn [List.filter].
  rewrite Hall by left. f_equal. apply IH. intros x Hx. apply Hall. by right.
Qed.

(** X21: whenever the scan resolves, the numbers of a snapshot add up
    to what the object could count: the numbers in [byUser] sum to the
    number of live connections whose owner's id is not a name every
    object inherits, and the numbers in [byTopic] to the number of
    subscriptions of live connections to topics that are no such name.
    When no owner id (no topic) among the live connections is such a name,
    the sum over [byUser] is [total] (the sum over [byTopic] is the number
    of subscriptions). *)
Theorem getConnectionStats_buckets_add_up (env : Env) (w : World) :
  scanAnswer env = None →
  ∃ stats,
    (getConnectionStats env w).1 = Fulfilled (Some stats)
    ∧ sum_counts (byUser stats)
      = length (List.filter (fun c => negb (Js.inherited (userId c)))
                  (rows_connected (table w)))
    ∧ sum_counts (byTopic stats)
      = length (List.filter (fun t => negb (Js.inherited t))
                  (rows_connected (table w) ≫= topics_of))
    ∧ ((∀ c, c ∈ rows_connected (table w) → Js.inherited (userId c) = false) →
       sum_counts (byUser stats) = total stats)
    ∧ ((∀ c t, c ∈ rows_connected (table w) → t ∈ topics_of c →
               Js.inherited t = false) →
       sum_counts (byTopic stats)
       = length (rows_connected (table w) ≫= topics_of)).
Proof.
  intros Hscan. rewrite getConnectionStats_run, Hscan.
  eexists. split; [reflexivity|]. rewrite foldl_tally.
  cbn [total byUser byTopic]. rewrite !live_rows_connected.
  assert (He : sorted_buckets ∅) by (intros k b Hk; by rewrite lookup_empty in Hk).
  rewrite !sum_counts_foldl_increment by done.
  assert (H0 : sum_counts ∅ = 0%nat) by apply map_fold_empty.
  rewrite H0. cbn [Nat.add].
  assert (Hu : List.filter (fun key => negb (Js.inherited key))
                 (userId <$> rows_connected (table w))
               = userId <$> List.filter (fun c => negb (Js.inherited (userId c)))
                              (rows_connected (table w))).
  { induction (rows_connected (table w)) as [|c l IH]; [done|].
    rewrite fmap_cons. cbn [List.filter].
    destruct (Js.inherited (userId c)); cbn [negb]; [done|].
    rewrite fmap_cons. by f_equal. }
  split; [by rewrite Hu, length_fmap|]. split; [done|]. split.
  - intros Hsafe. rewrite List_filter_all; [by rewrite length_fmap|].
    intros u Hin. apply list_elem_of_fmap in Hin as (c & -> & Hc).
    by rewrite Hsafe.
  - intros Hsafe. rewrite List_filter_all; [done|].
    intros t Hin. apply list_elem_of_bind in Hin as (c & Ht & Hc).
    by rewrite (Hsafe c t).
Qed.

Lemma getConnectionStats_buckets_add_up_on_mixed :
  ∃ stats,
    (getConnectionStats env_ok mixed).1 = Fulfilled (Some stats)
    ∧ sum_counts (byUser stats) = total stats
    ∧ sum_counts (byUser stats) = 4%nat.
Proof.
  destruct (getConnectionStats_buckets_add_up env_ok mixed)
    as (stats & Hrun & Hsum & _ & Hsafe & _).
  - reflexivity.
  - exists stats. split; [exact Hrun|]. split.
    + apply Hsafe.
      intros c Hc. apply list_elem_of_In in Hc. vm_compute in Hc.
      destruct Hc as [<-|[<-|[<-|[<-|[]]]]]; reflexivity.
    + rewrite Hsum. vm_compute. reflexivity.
Defined.

(** X22: the snapshot does not depend on the order in which the scan
    delivers the rows: tallying the same connections in another order
    gives the same [total], [byUser], [byTopic] and [timestamp]. *)
Theorem tally_does_not_depend_on_the_order
    (stats : Stats) (connections connections' : list Connection) :
  connections ≡ₚ connections' →
  foldl tally stats connections = foldl tally stats connections'.
Proof.
  intros Hp. rewrite !foldl_tally. f_equal.
  - apply map_eq. intros u. rewrite !lookup_foldl_increment.
    assert (Hu : userId <$> connections ≡ₚ userId <$> connections')
      by (by rewrite Hp).
    by rewrite (occurrences_Permutation _ _ _ Hu).
  - apply map_eq. intros t. rewrite !lookup_foldl_increment.
    assert (Ht : connections ≫= topics_of ≡ₚ connections' ≫= topics_of)
      by (by rewrite Hp).
    by rewrite (occurrences_Permutation _ _ _ Ht).
Qed.

Lemma tally_of_three_in_two_orders :
  foldl tally (mkStats 3 ∅ ∅ 0) [c1; c2; c3]
  = foldl tally (mkStats 3 ∅ ∅ 0) [c3; c2; c1].
Proof.
  apply tally_does_not_depend_on_the_order.
  eapply perm_trans; [apply perm_swap|].
  eapply perm_trans; [apply perm_skip, perm_swap|].
  apply perm_swap.
Defined.

(** ** Partner pricing *)

Section Pricing.
Import PartnerHandler.

Lemma maxDiscount_cases (userPlan : string) :
  userPlan ≠ "premium" →
  Js.inherited userPlan = false →
  (userPlan = "super" ∧ maxDiscounts userPlan = Own 10)
  ∨ (userPlan = "basic" ∧ maxDiscounts userPlan = Own 5)
  ∨ (userPlan ≠ "super" ∧ userPlan ≠ "basic"
     ∧ maxDiscounts userPlan = Undefined).
Proof.
  intros Hnp Hsafe. unfold maxDiscounts.
  destruct (decide (userPlan = "basic")) as [->|Hb]; [right; by left|].
  destruct (decide (userPlan = "super")) as [->|Hs]; [by left|].
  rewrite decide_False by done. rewrite Hsafe. right. by right.
Qed.

End Pricing.

Ltac flags_to_Z :=
  repeat match goal with
  | H : (_ && _) = true |- _ => apply andb_true_iff in H as [? ?]
  | H : (_ <=? _)%Z = true |- _ => apply Z.leb_le in H
  | H : (_ <? _)%Z = true |- _ => apply Z.ltb_lt in H
  | H : bool_decide _ = true |- _ => apply bool_decide_eq_true in H
  | |- (_ <=? _)%Z = true => apply Z.leb_le
  | |- (_ <=? _)%Z = false => apply Z.leb_gt
  end; try done; try lia.

(** X23: for a plan whose name is not one every object inherits, the
    discount a user gets is a number, the partner's discount capped by
    the plan: it never exceeds the offer; it equals the offer exactly
    when [canAccessFullDiscount] says so; a user the handlers flag with
    [needsSubscription] gets nothing; and a partner flagged
    [isPremiumOnly] gives its full discount to premium users only. *)
Theorem calculateUserDiscount_agrees_with_the_flags
    (discount : Z) (userPlan : string) :
  Js.inherited userPlan = false →
  ∃ userDiscount,
    PartnerHandler.calculateUserDiscount discount userPlan
    = PartnerHandler.Num userDiscount
    ∧ userDiscount <= discount
    ∧ (PartnerHandler.canAccessFullDiscount discount userPlan = true ↔
       userDiscount = discount)
    ∧ (PartnerHandler.needsSubscription discount userPlan = true →
       userDiscount = 0
       ∧ PartnerHandler.canAccessFullDiscount discount userPlan = false)
    ∧ (PartnerHandler.isPremiumOnly discount = true →
       PartnerHandler.canAccessFullDiscount discount userPlan = true →
       userPlan = "premium")
    ∧ (0 <= discount → 0 <= userDiscount).
Proof.
  intros Hsafe.
  unfold PartnerHandler.calculateUserDiscount, PartnerHandler.canAccessFullDiscount,
    PartnerHandler.needsSubscription, PartnerHandler.isPremiumOnly.
  destruct (decide (userPlan = "premium")) as [->|Hnp].
  - exists discount. rewrite bool_decide_eq_true_2 by done. cbn [orb].
    repeat split; intros; flags_to_Z.
  - rewrite (bool_decide_eq_false_2 (userPlan = "premium")) by done. cbn [orb].
    destruct (maxDiscount_cases userPlan Hnp Hsafe)
      as [[-> ->]|[[-> ->]|(Hs & Hb & ->)]].
    + exists (Z.min discount 10).
      rewrite (decide_True (P := "super" = "super")) by done.
      rewrite (decide_False (P := 10 = 0)) by done.
      repeat split; intros; flags_to_Z.
    + exists (Z.min discount 5).
      rewrite (decide_False (P := "basic" = "super")) by done.
      rewrite (decide_True (P := "basic" = "basic")) by done.
      rewrite (decide_False (P := 5 = 0)) by done.
      repeat split; intros; flags_to_Z.
    + exists (Z.min discount 0).
      rewrite (decide_False (P := userPlan = "super")) by done.
      rewrite (decide_False (P := userPlan = "basic")) by done.
      repeat split; intros; flags_to_Z.
Qed.

Lemma calculateUserDiscount_for_a_free_user :
  ∃ userDiscount,
    PartnerHandler.calculateUserDiscount 20 "free" = PartnerHandler.Num userDiscount
    ∧ userDiscount = 0
    ∧ PartnerHandler.canAccessFullDiscount 20 "free" = false.
Proof.
  destruct (calculateUserDiscount_agrees_with_the_flags 20 "free")
    as (u & Hu & _ & _ & Hneeds & _).
  - reflexivity.
  - exists u. split; [exact Hu|]. apply Hneeds. reflexivity.
Defined.

(** X24: the plans are ordered: for every discount a free user gets
    [min(discount, 0)], a basic user [min(discount, 5)], a super user
    [min(discount, 10)] and a premium user the whole discount, also above
    100, each at most the next; a plan the table does not list and no
    object inherits, a missing subscription and an inactive one all count
    as free; and for a plan named like a member every object inherits the
    result is [NaN]. *)
Theorem calculateUserDiscount_orders_the_plans (discount : Z) :
  PartnerHandler.calculateUserDiscount discount "free"
  = PartnerHandler.Num (Z.min discount 0)
  ∧ PartnerHandler.calculateUserDiscount discount "basic"
    = PartnerHandler.Num (Z.min discount 5)
  ∧ PartnerHandler.calculateUserDiscount discount "super"
    = PartnerHandler.Num (Z.min discount 10)
  ∧ PartnerHandler.calculateUserDiscount discount "premium"
    = PartnerHandler.Num discount
  ∧ Z.min discount 0 <= Z.min discount 5 <= Z.min discount 10
  ∧ Z.min discount 10 <= discount
  ∧ (∀ userPlan, userPlan ≠ "basic" → userPlan ≠ "super" → userPlan ≠ "premium" →
       Js.inherited userPlan = false →
       PartnerHandler.calculateUserDiscount discount userPlan
       = PartnerHandler.Num (Z.min discount 0))
  ∧ (∀ userPlan, Js.inherited userPlan = true →
       PartnerHandler.calculateUserDiscount discount userPlan = PartnerHandler.NaN)
  ∧ PartnerHandler.calculateUserDiscount discount (PartnerHandler.userPlanOf None)
    = PartnerHandler.Num (Z.min discount 0)
  ∧ (∀ features, PartnerHandler.isActive features = false →
       PartnerHandler.calculateUserDiscount discount
         (PartnerHandler.userPlanOf (Some features))
       = PartnerHandler.Num (Z.min discount 0)).
Proof.
  split; [reflexivity|]. split; [reflexivity|]. split; [reflexivity|].
  split; [reflexivity|]. split; [lia|]. split; [lia|].
  split; [|split; [|split]].
  - intros userPlan Hb Hs Hp Hsafe.
    unfold PartnerHandler.calculateUserDiscount, PartnerHandler.maxDiscounts.
    rewrite !decide_False by done. by rewrite Hsafe.
  - intros userPlan Hin.
    unfold PartnerHandler.calculateUserDiscount, PartnerHandler.maxDiscounts.
    assert (Hne : ∀ p, Js.inherited p = false → userPlan ≠ p)
      by (intros p Hp ->; congruence).
    rewrite !decide_False by (by apply Hne). by rewrite Hin.
  - reflexivity.
  - intros features Hf. unfold PartnerHandler.userPlanOf. by rewrite Hf.
Qed.

Lemma calculateUserDiscount_for_unlisted_plans :
  PartnerHandler.calculateUserDiscount 20 "gold" = PartnerHandler.Num (Z.min 20 0)
  ∧ PartnerHandler.calculateUserDiscount 20 "constructor" = PartnerHandler.NaN.
Proof.
  destruct (calculateUserDiscount_orders_the_plans 20)
    as (_ & _ & _ & _ & _ & _ & Hother & Hnan & _).
  split.
  - apply Hother;
      first [reflexivity|apply (bool_decide_unpack _); vm_compute; reflexivity].
  - apply Hnan. reflexivity.
Defined.

(** ** What the handler and the readers never do *)

(** X25: the admission handler makes at most two calls, in this order:
    the write of the row, and, only once the table has accepted it, one
    push of the welcome message, addressed to the event's own connection
    at the endpoint stored in the row; it never scans and never
    deletes. *)
Theorem handler_calls_at_most_put_then_welcome
    (env : Env) (event : ConnectHandler.ConnectEvent) (w : World) :
  let w' := (ConnectHandler.handler env event w).2 in
  (verified env event = None ∧ new_calls w w' = [])
  ∨ ∃ d, verified env event = Some d
         ∧ let item := ConnectHandler.connectionData env event (id d) in
           (putAnswer env item ≠ None ∧ new_calls w w' = [Put item])
           ∨ (putAnswer env item = None
              ∧ table w' !! ConnectHandler.ev_connectionId event = Some item
              ∧ new_calls w w'
                = [Put item; request_of (welcomeMessage env (id d)) item]).
Proof.
  intros w'. subst w'. destruct (verified env event) as [d|] eqn:Hv.
  - right. exists d. split; [done|].
    rewrite (handler_run_valid env event w d Hv). cbv zeta.
    destruct (putAnswer env _) as [e|] eqn:Hp.
    + left. split; [done|]. cbn [snd]. unfold record_call.
      by rewrite new_calls_app.
    + right. split; [done|]. cbn [snd table]. rewrite new_calls_app.
      split; [apply lookup_insert_eq|done].
  - left. split; [done|].
    destruct (handler_run_invalid env event w Hv) as [reason ->].
    cbn [snd]. unfold new_calls. by rewrite drop_all.
Qed.

(** X26: the readers and the statistics only read: each makes the scan
    and nothing else, and leaves the table as it was, whether the scan
    resolves or rejects; and when it resolves, the connections
    [getUserConnections] returns for a user are those of
    [getAllActiveConnections] that the user owns. *)
Theorem readers_only_scan (env : Env) (w : World) :
  (getAllActiveConnections env w).2 = record_call Scan w
  ∧ (∀ uid, (getUserConnections env uid w).2 = record_call Scan w)
  ∧ (∀ topics, (getSubscriberConnections env topics w).2 = record_call Scan w)
  ∧ (getConnectionStats env w).2 = record_call Scan w
  ∧ (scanAnswer env = None →
     ∀ uid, ∃ mine everyone,
       (getUserConnections env uid w).1 = Fulfilled mine
       ∧ (getAllActiveConnections env w).1 = Fulfilled everyone
       ∧ ∀ c, c ∈ mine ↔ c ∈ everyone ∧ userId c = uid).
Proof.
  rewrite getAllActiveConnections_run, getConnectionStats_run.
  split; [by destruct (scanAnswer env)|]. split; [|split; [|split]].
  - intros uid. rewrite getUserConnections_run. by destruct (scanAnswer env).
  - intros topics. rewrite getSubscriberConnections_run.
    by destruct (scanAnswer env).
  - by destruct (scanAnswer env).
  - intros Hscan uid. rewrite getUserConnections_run, Hscan.
    do 2 eexists. split; [reflexivity|]. split; [reflexivity|].
    intros c. apply user_live_live.
Qed.
